(** * fvid: files stored as black/white video frames

    A shallow embedding of [fvid/fvid.py] and the properties of its codec
    pipeline: key choice, the authenticated container, the bit/byte
    conversion, the frame encoder and decoder, the sequencer and the
    command-line driver.

    Conventions of the embedding.
    - A Python [bytes] value is a [list byte]; a Python [str] is a [string]
      whose characters are read as code points below 256.
    - A string of ['0']/['1'] characters (what [BitArray.bin] returns and
      [Bits(bin=...)] consumes) is a [list bool], [true] standing for ['1'].
    - Effects (files, terminal, module globals, external commands, saved
      frames, console output) are threaded through a [world]; a Python
      exception is the [Raise] outcome of the [M] monad and keeps the world
      reached so far.
    - Files are known by the path strings the program uses. What the
      external transcoder reads and writes is not kept among them: the
      frames it leaves are [glob_frames], the frames saved for it are
      events of the log.
    - Third-party libraries (gzip, json, base64, PBKDF2, AES-EAX) are the
      operations of the class [Libs]; their documented contracts are the
      class [LibsOK]. *)

From Stdlib Require Import ZArith Strings.Byte Ascii String.
From stdpp Require Import base option list strings gmap pretty sorting.

Set Warnings "-register-all".

(** ** Python exceptions raised along the pipeline *)

Inductive exn : Type :=
  | WrongPassword (msg : string)        (* class WrongPassword(Exception) *)
  | MissingArgument (msg : string)      (* class MissingArgument(Exception) *)
  | NotImplementedError (msg : string)
  | FileNotFoundError (path : string)
  | InterpretError                      (* bitstring: not a whole number of bytes *)
  | BadGzipFile                         (* gzip.BadGzipFile / EOFError / zlib.error *)
  | DecodeError                         (* UnicodeDecodeError / json.JSONDecodeError *)
  | KeyError (key : string)
  | TypeError
  | BinasciiError                       (* binascii.Error *)
  | IndexError
  | ValueError
  | OSError
  | EOFError.

(** The error kinds named by the design document, as the exceptions of the
    program fall into them. *)
Inductive error_kind : Type :=
  | AuthenticationFailure
  | MalformedContainer
  | InvalidFramerate
  | MissingArgumentKind
  | OtherFailure.

Definition kind_of (e : exn) : error_kind :=
  match e with
  | WrongPassword _ => AuthenticationFailure
  | InterpretError | BadGzipFile | DecodeError | KeyError _ | TypeError
  | BinasciiError => MalformedContainer
  | NotImplementedError _ => InvalidFramerate
  | MissingArgument _ => MissingArgumentKind
  | FileNotFoundError _ | IndexError | ValueError | OSError | EOFError => OtherFailure
  end.

(** ** Images *)

(** An image of mode ["1"] as [make_image_sequence] builds it: its size and
    the stored value of every pixel, row after row. *)
Record Bitmap : Type := mkBitmap {
  bm_size : nat * nat;
  bm_data : list Z
}.

(** An RGB image as [get_bits_from_image] reads it: its size
    [(width, height)] and the pixel access object of [image.load()],
    [im_px x y] standing for [px[x, y]]. *)
Record Image : Type := mkImage {
  im_size : nat * nat;
  im_px : nat → nat → Z * Z * Z
}.

(** One entry of the frames directory after the transcoder has split a
    video: file name, modification time and picture. *)
Record dirent : Type := mkDirent {
  d_name : string;
  d_mtime : Z;
  d_image : Image
}.

(** ** The world and the monad *)

Inductive event : Type :=
  | EPrint (s : string)
  | EGetpass (prompt : string)
  | EKdf (password : list byte)
  | EAesNew (key : list byte)
  | ESystem (cmd : string)
  | ESave (path : string) (img : Bitmap)
  | EOpenWrite (path : string)
  | EWriteFd (fd : Z) (content : list byte)
  | ERemove (path : string)
  | EMakedirs (path : string)
  | ERmtree (path : string).

Record world : Type := mkWorld {
  files : gmap string (list byte);   (* regular files, by path *)
  tty : list string;                 (* lines the user will type at a prompt *)
  glob_frames : list dirent;         (* what glob finds once ffmpeg has run *)
  FRAMERATE : string;                (* the module global *)
  log : list event                   (* effects so far, oldest first *)
}.

Inductive result (A : Type) : Type :=
  | Ok (a : A)
  | Raise (e : exn).
Arguments Ok {A} a.
Arguments Raise {A} e.

Definition M (A : Type) : Type := world → result A * world.

Definition ret {A} (a : A) : M A := λ w, (Ok a, w).
Definition raise {A} (e : exn) : M A := λ w, (Raise e, w).
Definition bind {A B} (m : M A) (k : A → M B) : M B :=
  λ w, match m w with
       | (Ok a, w') => k a w'
       | (Raise e, w') => (Raise e, w')
       end.

#[global] Instance M_ret : MRet M := @ret.
#[global] Instance M_bind : MBind M := λ A B k m, bind m k.

(** The world after some more effects. *)
Definition add_log (w : world) (evs : list event) : world :=
  mkWorld (files w) (tty w) (glob_frames w) (FRAMERATE w) (log w ++ evs).

Definition emit (e : event) : M unit := λ w, (Ok tt, add_log w [e]).
Definition print (s : string) : M unit := emit (EPrint s).

(** The world after an assignment to the global. *)
Definition with_FRAMERATE (w : world) (f : string) : world :=
  mkWorld (files w) (tty w) (glob_frames w) f (log w).

Definition get_FRAMERATE : M string := λ w, (Ok (FRAMERATE w), w).
Definition set_FRAMERATE (f : string) : M unit := λ w, (Ok tt, with_FRAMERATE w f).

(** [getpass.getpass(prompt)]: reads one line from the terminal without
    echo; [EOFError] when there is none. *)
Definition getpass (prompt : string) : M string :=
  λ w, match tty w with
       | line :: rest =>
           (Ok line, mkWorld (files w) rest (glob_frames w) (FRAMERATE w)
                             (log w ++ [EGetpass prompt]))
       | [] =>
           (Raise EOFError, mkWorld (files w) [] (glob_frames w) (FRAMERATE w)
                                    (log w ++ [EGetpass prompt]))
       end.

(** Reading a whole file ([BitArray(filename=...)] followed by [tobytes]).
    The file is mapped into memory, which an empty file does not allow:
    [ValueError: cannot mmap an empty file]. *)
Definition read_file (path : string) : M (list byte) :=
  λ w, match files w !! path with
       | Some [] => (Raise ValueError, w)
       | Some content => (Ok content, w)
       | None => (Raise (FileNotFoundError path), w)
       end.

(** [with open(path, "wb") as f: bitstring.tofile(f)]. *)
Definition write_file (path : string) (content : list byte) : M unit :=
  λ w, (Ok tt, mkWorld (<[path := content]> (files w)) (tty w) (glob_frames w)
                       (FRAMERATE w) (log w ++ [EOpenWrite path])).

(** [glob.glob(f"{FRAMES_DIR}decoded_frames*.png")], in the order the
    directory gives. *)
Definition glob_decoded_frames : M (list dirent) := λ w, (Ok (glob_frames w), w).

(** [os.system(cmd)]: the command is started and its exit status ignored.
    What the transcoder leaves behind is not kept in [files]: its frames
    are [glob_frames], and its intermediate video is there exactly when it
    went on to leave frames in a frames directory that started out empty. *)
Definition os_system (cmd : string) : M unit := emit (ESystem cmd).

(** [os.remove(path)], called on the intermediate video of the transcoder
    only: [FileNotFoundError] when the transcoder left none. *)
Definition os_remove (path : string) : M unit :=
  λ w, match glob_frames w with
       | [] => (Raise (FileNotFoundError path), w)
       | _ :: _ => emit (ERemove path) w
       end.

(** A file descriptor [n] that is open for writing shows as the entry
    [/dev/fd/n] of [files]. *)
Definition fd_path (fd : Z) : string := "/dev/fd/" +:+ pretty fd.

(** [with open(fd, "wb") as f: bitstring.tofile(f)] for an integer [fd]:
    a number that does not fit a C [int] is not taken for a descriptor,
    and as a file name it is a [TypeError]; a negative one is a
    [ValueError], a descriptor that is not open an [OSError]. The content
    goes to whatever the descriptor stands for, and leaving the [with]
    block closes the descriptor. *)
Definition write_fd (fd : Z) (content : list byte) : M unit :=
  if bool_decide (fd < - 2 ^ 31 ∨ 2 ^ 31 ≤ fd)%Z then raise TypeError
  else if bool_decide (fd < 0)%Z then raise ValueError
  else λ w, match files w !! fd_path fd with
            | Some _ =>
                (Ok tt, mkWorld (delete (fd_path fd) (files w))
                                (tty w) (glob_frames w) (FRAMERATE w)
                                (log w ++ [EWriteFd fd content]))
            | None => (Raise OSError, w)
            end.

(** ** Bits and bytes (the [bitstring] package) *)

#[global] Instance byte_eq_dec : EqDecision byte := Byte.byte_eq_dec.

(** [BitArray(b).bin] for one byte: most significant bit first. *)
Definition byte_bin (b : byte) : list bool :=
  let '(b0, (b1, (b2, (b3, (b4, (b5, (b6, b7))))))) := Byte.to_bits b in
  [b7; b6; b5; b4; b3; b2; b1; b0].

(** [BitArray(bytes).bin] *)
Definition bytes_bin (bs : list byte) : list bool := flat_map byte_bin bs.

(** [Bits(bin=bits).bytes]: the [bytes] property refuses a bit string that
    is not a whole number of bytes. *)
Fixpoint bin_bytes (bits : list bool) : result (list byte) :=
  match bits with
  | [] => Ok []
  | b7 :: b6 :: b5 :: b4 :: b3 :: b2 :: b1 :: b0 :: rest =>
      match bin_bytes rest with
      | Ok bs =>
          Ok (Byte.of_bits (b0, (b1, (b2, (b3, (b4, (b5, (b6, b7))))))) :: bs)
      | Raise e => Raise e
      end
  | _ => Raise InterpretError
  end.

Definition lift {A} (r : result A) : M A := λ w, (r, w).

Definition of_option {A} (o : option A) (e : exn) : M A :=
  match o with
  | Some a => ret a
  | None => raise e
  end.

(** ** Strings *)

(** [s.encode()] (UTF-8) for code points below 256. *)
Definition utf8_encode_char (c : ascii) : list byte :=
  let n := N_of_ascii c in
  if (n <? 128)%N then [byte_of_ascii c]
  else [default x00 (Byte.of_N (192 + n / 64)); default x00 (Byte.of_N (128 + n mod 64))].

Definition str_encode (s : string) : list byte :=
  flat_map utf8_encode_char (list_ascii_of_string s).

(** [c in s] for a one-character [c]. *)
Fixpoint str_contains (c : ascii) (s : string) : bool :=
  match s with
  | EmptyString => false
  | String d rest => if Ascii.eqb c d then true else str_contains c rest
  end.

(** [str.isdigit] on one code point below 256: the ten decimal digits and
    the superscripts one, two and three. *)
Definition char_isdigit (c : ascii) : bool :=
  let n := N_of_ascii c in
  ((48 <=? n) && (n <=? 57) || (n =? 178) || (n =? 179) || (n =? 185))%N.

Fixpoint all_digits (s : string) : bool :=
  match s with
  | EmptyString => true
  | String c rest => char_isdigit c && all_digits rest
  end.

(** [s.isdigit()]: false on the empty string. *)
Definition isdigit (s : string) : bool :=
  match s with
  | EmptyString => false
  | _ => all_digits s
  end.

(** [os.path.basename] on POSIX: what follows the last slash. *)
Fixpoint basename_go (s acc : string) : string :=
  match s with
  | EmptyString => acc
  | String c rest =>
      if Ascii.eqb c "/"%char then basename_go rest EmptyString
      else basename_go rest (acc +:+ String c EmptyString)
  end.
Definition basename (path : string) : string := basename_go path EmptyString.

(** ** JSON values, as [json.loads] returns them *)

Inductive json : Type :=
  | JNull
  | JBool (b : bool)
  | JNum (z : Z)
  | JStr (s : string)
  | JArr (items : list json)
  | JObj (fields : list (string * json)).

Fixpoint assoc (k : string) (fields : list (string * json)) : option json :=
  match fields with
  | [] => None
  | (k', v) :: rest => if String.eqb k k' then Some v else assoc k rest
  end.

(** [data[key]] with a string key. *)
Definition getitem (data : json) (key : string) : M json :=
  match data with
  | JObj fields => of_option (assoc key fields) (KeyError key)
  | _ => raise TypeError
  end.

(** ** Third-party libraries *)

Class Libs : Type := {
  (** [PBKDF2HMAC(SHA512, length, salt, iterations).derive(password)] *)
  PBKDF2HMAC : ∀ (length : nat) (salt : list byte) (iterations : N)
                 (password : list byte), list byte;
  (** AES in EAX mode with a given key and nonce: the counter-mode
      keystream transformation and the tag over a ciphertext. *)
  EAX_ctr : ∀ (key nonce data : list byte), list byte;
  EAX_mac : ∀ (key nonce ciphertext : list byte), list byte;
  (** what a [GzipFile] opened for writing produces, and for reading returns *)
  gzip_compress : list byte → list byte;
  gzip_decompress : list byte → option (list byte);
  (** [json.dumps(v).encode("utf-8")] and [json.loads(b.decode("utf-8"))] *)
  json_dumps : json → list byte;
  json_loads : list byte → option json;
  (** [base64.b64encode(b).decode("utf-8")] and [base64.b64decode(s)] *)
  b64encode : list byte → string;
  b64decode : string → option (list byte)
}.

Definition is_ascii (s : string) : bool :=
  forallb (λ c, (N_of_ascii c <? 128)%N) (list_ascii_of_string s).

(** [base64.b64decode(s)] for a [str]: the string is first encoded as
    ASCII, a [ValueError] when it has any other character; the decoder
    proper ([b64decode] of the class) raises [binascii.Error] on what it
    refuses. *)
Definition base64_b64decode {L : Libs} (s : string) : result (list byte) :=
  if is_ascii s then
    match b64decode s with
    | Some data => Ok data
    | None => Raise BinasciiError
    end
  else Raise ValueError.

(** The contracts of the libraries that the round trip relies on. *)
Class LibsOK (L : Libs) : Prop := {
  PBKDF2HMAC_length : ∀ n salt iters pw, length (PBKDF2HMAC n salt iters pw) = n;
  EAX_ctr_involutive : ∀ key nonce data,
    EAX_ctr key nonce (EAX_ctr key nonce data) = data;
  gzip_roundtrip : ∀ data, gzip_decompress (gzip_compress data) = Some data;
  gzip_nonempty : ∀ data, gzip_compress data ≠ [];
  json_roundtrip : ∀ tag data filename,
    let v := JObj [("tag", JStr tag); ("data", JStr data); ("filename", JStr filename)] in
    json_loads (json_dumps v) = Some v;
  b64_roundtrip : ∀ data, base64_b64decode (b64encode data) = Ok data
}.

(** The string of the one character with code 0. *)
Definition NUL : string := String Ascii.zero EmptyString.

(** A further property of the key derivation, which the round trip does
    not need: HMAC fills a key shorter than its block -- 128 bytes for
    SHA-512 -- with zero bytes, so that a zero byte after a short password
    does not change the derived key. *)
Definition hmac_pads_key (L : Libs) : Prop :=
  ∀ n salt iters pw, length pw < 128 →
    PBKDF2HMAC n salt iters (pw ++ [x00]) = PBKDF2HMAC n salt iters pw.

(** ** Constants of the module *)

Definition FRAMES_DIR : string := "./fvid_frames/".
Definition SALT : list byte := list_byte_of_string "63929291bca3c602de64352a4d4bfe69".
Definition DEFAULT_KEY : list byte :=
  list_byte_of_string (String.concat "" (repeat " " 32)).
Definition TEMPVIDEO : string := "_temp.mp4".
Definition FRAMERATE0 : string := "1".   (* initial value of the global *)

Section Pipeline.
Context {L : Libs}.

(** ** The cipher object of [AES.new(key, AES.MODE_EAX, nonce=...)] *)

Record cipher : Type := mkCipher {
  c_key : list byte;
  c_nonce : list byte;
  c_seen : list byte      (* ciphertext the tag is computed over *)
}.

Definition AES_new (key nonce : list byte) : M cipher :=
  emit (EAesNew key);;
  if bool_decide (length key ∈ [16; 24; 32]) then ret (mkCipher key nonce [])
  else raise ValueError.

Definition encrypt_and_digest (c : cipher) (plaintext : list byte)
  : list byte * list byte :=
  let ciphertext := EAX_ctr (c_key c) (c_nonce c) plaintext in
  (ciphertext, EAX_mac (c_key c) (c_nonce c) ciphertext).

Definition decrypt (c : cipher) (ciphertext : list byte) : cipher * list byte :=
  (mkCipher (c_key c) (c_nonce c) ciphertext,
   EAX_ctr (c_key c) (c_nonce c) ciphertext).

(** [cipher.verify(tag)] raises [ValueError] on a tag that does not match. *)
Definition verify (c : cipher) (tag : list byte) : M unit :=
  if bool_decide (EAX_mac (c_key c) (c_nonce c) (c_seen c) = tag) then ret tt
  else raise ValueError.

(** [try: m except ValueError: raise e] *)
Definition except_ValueError {A} (m : M A) (e : exn) : M A :=
  λ w, match m w with
       | (Raise ValueError, w') => (Raise e, w')
       | r => r
       end.

(** ** get_password *)

Definition get_password (password_provided : option string) : M (list byte) :=
  if bool_decide (password_provided = Some "default") then ret DEFAULT_KEY
  else
    password_provided ← match password_provided with
                         | None => getpass "Enter password:"
                         | Some p => ret p
                         end;
    let password := str_encode password_provided in
    emit (EKdf password);;
    ret (PBKDF2HMAC 32 SALT 100000 password).

(** ** get_bits_from_file *)

Definition container_record (tag ciphertext : list byte) (filepath : string) : json :=
  JObj [("tag", JStr (b64encode tag));
        ("data", JStr (b64encode ciphertext));
        ("filename", JStr filepath)].

Definition get_bits_from_file (filepath : string) (key : list byte) : M (list bool) :=
  print "Reading file...";;
  bitarray ← read_file filepath;
  cipher ← AES_new key SALT;
  let '(ciphertext, tag) := encrypt_and_digest cipher bitarray in
  let filename := basename filepath in
  let data_bytes := json_dumps (container_record tag ciphertext filepath) in
  print "Zipping...";;
  let zip := gzip_compress data_bytes in
  ret (bytes_bin zip).

(** ** save_bits_to_file *)

(** [base64.b64decode(v)] on a parsed JSON value. *)
Definition b64decode_value (v : json) : M (list byte) :=
  match v with
  | JStr s => lift (base64_b64decode s)
  | _ => raise TypeError
  end.

(** [open(filepath, "wb")] followed by the write, for a path taken from
    the record: a string names a file; an integer is taken for a file
    descriptor, and so is a boolean, [True] being 1 and [False] 0; anything
    else is refused. *)
Definition write_to (filepath : json) (content : list byte) : M unit :=
  match filepath with
  | JStr path => write_file path content
  | JNum fd => write_fd fd content
  | JBool b => write_fd (if b then 1 else 0) content
  | _ => raise TypeError
  end.

Definition save_bits_to_file (file_path : option string) (bits : list bool)
    (key : list byte) : M unit :=
  print "Unziping...";;
  in_ ← lift (bin_bytes bits);
  bitstring ← of_option (gzip_decompress in_) BadGzipFile;
  data ← of_option (json_loads bitstring) DecodeError;
  tag_field ← getitem data "tag";
  tag ← b64decode_value tag_field;
  data_field ← getitem data "data";
  ciphertext ← b64decode_value data_field;
  filename ← getitem data "filename";
  cipher ← AES_new key SALT;
  let '(cipher, bitstring) := decrypt cipher ciphertext in
  print "Checking integrity...";;
  except_ValueError (verify cipher tag)
    (WrongPassword "Key incorrect or message corrupted");;
  let filepath := match file_path with
                  | None => filename
                  | Some p => JStr p
                  end in
  write_to filepath bitstring.

End Pipeline.

(** ** Loops *)

(** [for a in l: s = body(s, a)] with a body that may raise. *)
Fixpoint for_in {A S} (l : list A) (body : S → A → M S) (s : S) : M S :=
  match l with
  | [] => ret s
  | a :: l' => s' ← body s a; for_in l' body s'
  end.

(** [range(start, stop, step)] for a positive step, by the iteration it
    stands for; [fuel] bounds the number of elements. *)
Fixpoint range_go (fuel i stop step : nat) : list nat :=
  match fuel with
  | 0 => []
  | S fuel' => if i <? stop then i :: range_go fuel' (i + step) stop step else []
  end.

(** [range(start, stop, step)]: a zero step is a [ValueError]. *)
Definition py_range (start stop step : nat) : result (list nat) :=
  if step =? 0 then Raise ValueError
  else Ok (range_go (stop - start) start stop step).

(** [l[i:j]] for [0 <= i <= j]. *)
Definition slice {A} (l : list A) (i j : nat) : list A := take (j - i) (drop i l).

(** [l.pop()] *)
Definition list_pop {A} (l : list A) : M (A * list A) :=
  match reverse l with
  | [] => raise IndexError
  | x :: r => ret (x, reverse r)
  end.

(** [sorted(l, key=key)]: stable, as Python's sort is. *)
Fixpoint insert_by {A} (key : A → Z) (x : A) (l : list A) : list A :=
  match l with
  | [] => [x]
  | y :: l' => if (key x <=? key y)%Z then x :: y :: l' else y :: insert_by key x l'
  end.
Definition sorted_by {A} (key : A → Z) (l : list A) : list A :=
  foldr (insert_by key) [] l.

(** ** get_bits_from_image (the pure Python path, [use_cython = False]) *)

Definition pixel_bin_rep (pixel : Z * Z * Z) : bool :=
  let '(p0, p1, p2) := pixel in
  bool_decide (Z.abs (p0 - 255) < Z.abs (p0 - 0))%Z
  && bool_decide (Z.abs (p1 - 255) < Z.abs (p1 - 0))%Z
  && bool_decide (Z.abs (p2 - 255) < Z.abs (p2 - 0))%Z.

Definition get_bits_from_image (image : Image) : list bool :=
  let '(width, height) := im_size image in
  let px := im_px image in
  foldl (λ bits y,
           foldl (λ bits x, bits ++ [pixel_bin_rep (px x y)]) bits (seq 0 width))
        [] (seq 0 height).

(** ** get_bits_from_video *)

Definition get_bits_from_video (video_filepath : string) : M (list bool) :=
  print "Reading video...";;
  framerate ← get_FRAMERATE;
  os_system ("ffmpeg -i " +:+ video_filepath
             +:+ " -c:v libx264rgb -filter:v fps=fps=" +:+ framerate
             +:+ " " +:+ TEMPVIDEO);;
  os_system ("ffmpeg -i " +:+ TEMPVIDEO +:+ " ./fvid_frames/decoded_frames_%d.png");;
  os_remove TEMPVIDEO;;
  found ← glob_decoded_frames;
  let image_sequence := map d_image (sorted_by d_mtime found) in
  let sequence_length := length image_sequence in
  print "Bits are in place";;
  for_in (seq 0 sequence_length)
         (λ bits index,
            image ← of_option (image_sequence !! index) IndexError;
            ret (bits ++ get_bits_from_image image))
         [].

(** ** split_string_by_n *)

Definition split_string_by_n {A} (bitstring : list A) (n : nat) : result (list (list A)) :=
  match py_range 0 (length bitstring) n with
  | Ok indices => Ok (foldl (λ bit_list i, bit_list ++ [slice bitstring i (i + n)]) [] indices)
  | Raise e => Raise e
  end.

(** ** make_image_sequence *)

(** [Image.new("1", (width, height))]: every pixel 0. *)
Definition Image_new (size : nat * nat) : Bitmap :=
  mkBitmap size (replicate (size.1 * size.2) 0%Z).

(** [image.putdata(data)]: fills the pixels from the upper left corner, row
    by row; more values than pixels is a [TypeError]. *)
Definition putdata (image : Bitmap) (data : list Z) : result Bitmap :=
  if length (bm_data image) <? length data then Raise TypeError
  else Ok (mkBitmap (bm_size image) (data ++ drop (length data) (bm_data image))).

Definition int_of_bit (b : bool) : Z := if b then 1%Z else 0%Z.

Definition encoded_frame_path (index : nat) : string :=
  FRAMES_DIR +:+ "encoded_frames_" +:+ pretty index +:+ ".png".

Definition make_image_sequence (bitstring : list bool) (resolution : nat * nat) : M unit :=
  let '(width, height) := resolution in
  let set_size := width * height in
  print "Making image sequence";;
  print "Cutting...";;
  bitlist ← lift (split_string_by_n bitstring set_size);
  final ← of_option (last bitlist) IndexError;
  let bitlist :=
    <[length bitlist - 1 := final ++ replicate (set_size - length final) false]> bitlist in
  let index := 1 in
  let bitlist := reverse bitlist in
  print "Saving frames...";;
  for_in (seq 0 (length bitlist))
         (λ '(bitlist, index) _,
            '(bitl, bitlist) ← list_pop bitlist;
            let image_bits := map int_of_bit bitl in
            let image := Image_new (width, height) in
            image ← lift (putdata image image_bits);
            emit (ESave (encoded_frame_path index) image);;
            ret (bitlist, index + 1))
         (bitlist, index);;
  ret tt.

(** ** make_video, cleanup, setup *)

Definition make_video (output_filepath : option string) (framerate : string) : M unit :=
  let outputfile := match output_filepath with
                    | None => "file.mp4"
                    | Some p => p
                    end in
  os_system ("ffmpeg -r " +:+ framerate
             +:+ " -i ./fvid_frames/encoded_frames_%d.png -c:v libx264rgb "
             +:+ outputfile).

(** Whether a path lies in the frames directory, by the two spellings of
    a path relative to the working directory. *)
Definition in_FRAMES_DIR (path : string) : bool :=
  String.prefix FRAMES_DIR path || String.prefix "fvid_frames/" path.

(** The files that are left when the frames directory is deleted. *)
Definition rmtree_FRAMES_DIR (fs : gmap string (list byte)) : gmap string (list byte) :=
  filter (λ entry, in_FRAMES_DIR entry.1 = false) fs.

(** [shutil.rmtree(FRAMES_DIR)]: every file in the directory goes. *)
Definition cleanup : M unit :=
  λ w, (Ok tt, mkWorld (rmtree_FRAMES_DIR (files w)) (tty w) (glob_frames w)
                       (FRAMERATE w) (log w ++ [ERmtree FRAMES_DIR])).

(** [os.makedirs(FRAMES_DIR)] unless the directory is there; directories
    are not part of the world, so the event stands for both cases. *)
Definition setup : M unit := emit (EMakedirs FRAMES_DIR).

(** ** main *)

(** The command line as [argparse] sees it: which options are present and
    with what value. [-i] is required, so it always has a value; [-p] may
    be absent, present without a value, or present with one. *)
Record argv : Type := mkArgv {
  opt_encode : bool;
  opt_decode : bool;
  opt_input : string;
  opt_output : option string;
  opt_framerate : option string;
  opt_password : option (option string)
}.

(** The namespace returned by [parser.parse_args()]. *)
Record Namespace : Type := mkNamespace {
  args_encode : bool;
  args_decode : bool;
  args_input : string;
  args_output : option string;
  args_framerate : string;
  args_password : option string
}.

(** [-f] has [default=FRAMERATE]; [-p] has [nargs="?"] and
    [default="default"], and no [const], so the bare flag gives [None]. *)
Definition parse_args (default_framerate : string) (a : argv) : Namespace :=
  mkNamespace (opt_encode a) (opt_decode a) (opt_input a) (opt_output a)
    (default default_framerate (opt_framerate a))
    (match opt_password a with
     | None => Some "default"
     | Some given => given
     end).

(** [if args.output:] -- [None] and the empty string are false. *)
Definition truthy (o : option string) : bool :=
  match o with
  | None | Some EmptyString => false
  | Some _ => true
  end.

(** The framerate test of the encode branch: [true] when it raises. *)
Definition framerate_refused (framerate : string) : bool :=
  (negb (isdigit framerate) && negb (str_contains "/" framerate))
  || forallb (λ x, str_contains x framerate) ["-"%char; "/"%char].

Definition default_resolution : nat * nat := (1920, 1080).

Section Main.
Context {L : Libs}.

Definition main (cmdline : argv) : M unit :=
  default_framerate ← get_FRAMERATE;
  let args := parse_args default_framerate cmdline in
  setup;;
  current ← get_FRAMERATE;
  (if bool_decide (args_framerate args ≠ current)
   then set_FRAMERATE (args_framerate args) else mret tt);;
  (if negb (args_decode args) && negb (args_encode args)
   then raise (MissingArgument "You should use either --encode or --decode!")
   else mret tt);;
  key ← get_password (args_password args);
  (if args_decode args then
     bits ← get_bits_from_video (args_input args);
     let file_path := if truthy (args_output args) then args_output args else None in
     save_bits_to_file file_path bits key
   else if args_encode args then
     (if framerate_refused (args_framerate args)
      then raise (NotImplementedError
                    ("The framerate must be a positive fraction or an integer for "
                     +:+ "now, like 3, '1/3', or '1/5'!"))
      else mret tt);;
     bits ← get_bits_from_file (args_input args) key;
     make_image_sequence bits default_resolution;;
     let video_file_path := if truthy (args_output args) then args_output args else None in
     make_video video_file_path (args_framerate args)
   else mret tt);;
  cleanup.

End Main.

(** ** Specification vocabulary *)

(** [ceil(a / b)] for a positive [b]. *)
Definition ceil_div (a b : nat) : nat := (a + b - 1) / b.

(** The frames saved between two worlds, in the order they were saved. *)
Definition saved (evs : list event) : list (string * Bitmap) :=
  omap (λ e, match e with ESave path img => Some (path, img) | _ => None end) evs.

(** Whether a cipher was built, a prompt shown, a key derived, a file
    opened for writing, an external command run. *)
Definition is_cipher (e : event) : bool :=
  match e with EAesNew _ => true | _ => false end.
Definition is_prompt (e : event) : bool :=
  match e with EGetpass _ => true | _ => false end.
Definition is_kdf (e : event) : bool :=
  match e with EKdf _ => true | _ => false end.
Definition is_write (e : event) : bool :=
  match e with EOpenWrite _ | EWriteFd _ _ => true | _ => false end.
Definition is_system (e : event) : bool :=
  match e with ESystem _ => true | _ => false end.
Definition is_save (e : event) : bool :=
  match e with ESave _ _ => true | _ => false end.

(** A channel value is closer to white than to black. *)
Definition closer_to_white (c : Z) : Prop := (Z.abs (c - 255) < Z.abs (c - 0))%Z.

(** The frame of mode ["1"] that [make_image_sequence] saves for one chunk
    of exactly [width * height] bits. *)
Definition encodeFrame (resolution : nat * nat) (bits : list bool) : result Bitmap :=
  putdata (Image_new resolution) (map int_of_bit bits).

(** What the decoder sees of a saved frame once the PNG writer, a lossless
    transcoder and the PNG reader have passed it on: a stored value of 0 is
    pure black, any other pure white, at the same place. *)
Definition render (bm : Bitmap) : Image :=
  mkImage (bm_size bm)
    (λ x y, match bm_data bm !! (y * (bm_size bm).1 + x) with
            | Some v => if (v =? 0)%Z then (0, 0, 0)%Z else (255, 255, 255)%Z
            | None => (0, 0, 0)%Z
            end).

(** The key sizes that [AES.new] accepts. *)
Definition valid_key_length (key : list byte) : Prop := length key ∈ [16; 24; 32].

(** The world after [open(path, "wb")] and the write of [content]. *)
Definition written (w : world) (path : string) (content : list byte)
    (evs : list event) : world :=
  mkWorld (<[path := content]> (files w)) (tty w) (glob_frames w) (FRAMERATE w)
          (log w ++ evs ++ [EOpenWrite path]).

(** The world after the write of [content] to the open descriptor [fd],
    which is closed after it. *)
Definition written_fd (w : world) (fd : Z) (content : list byte)
    (evs : list event) : world :=
  mkWorld (delete (fd_path fd) (files w))
          (tty w) (glob_frames w) (FRAMERATE w) (log w ++ evs ++ [EWriteFd fd content]).

(** The world after some more effects and the final [cleanup]. *)
Definition cleaned (w : world) (evs : list event) : world :=
  mkWorld (rmtree_FRAMES_DIR (files w)) (tty w) (glob_frames w) (FRAMERATE w)
          (log w ++ evs ++ [ERmtree FRAMES_DIR]).

Section Vocabulary.
Context {L : Libs}.

(** The key that [get_password] returns for a password given on the
    command line. *)
Definition derive (P : string) : list byte :=
  if bool_decide (P = "default") then DEFAULT_KEY
  else PBKDF2HMAC 32 SALT 100000 (str_encode P).

(** A field value that [base64.b64decode] refuses. *)
Definition not_base64 (v : json) : Prop :=
  match v with
  | JStr s => ∀ data, base64_b64decode s ≠ Ok data
  | _ => True
  end.

(** A parsed record that [save_bits_to_file] cannot take apart: it is not
    an object, or one of the three keys is absent, or the tag or the data
    is not a string of base64. *)
Definition record_rejected (data : json) : Prop :=
  match data with
  | JObj fields =>
      match assoc "tag" fields, assoc "data" fields, assoc "filename" fields with
      | Some t, Some d, Some _ => not_base64 t ∨ not_base64 d
      | _, _, _ => True
      end
  | _ => True
  end.

(** A blob that cannot be decompressed, or whose content is not JSON, or
    whose record is rejected. *)
Definition malformed (blob : list byte) : Prop :=
  match gzip_decompress blob with
  | None => True
  | Some raw =>
      match json_loads raw with
      | None => True
      | Some data => record_rejected data
      end
  end.

(** In the words of the design document: a record with "fields missing or
    mis-typed" is anything but an object whose tag, data and filename are
    all strings. *)
Definition fields_missing_or_mistyped (data : json) : Prop :=
  match data with
  | JObj fields =>
      match assoc "tag" fields, assoc "data" fields, assoc "filename" fields with
      | Some (JStr _), Some (JStr _), Some (JStr _) => False
      | _, _, _ => True
      end
  | _ => True
  end.

(** The condition of the design document for [MalformedContainer]. *)
Definition malformed_by_design (blob : list byte) : Prop :=
  match gzip_decompress blob with
  | None => True
  | Some raw =>
      match json_loads raw with
      | None => True
      | Some data => fields_missing_or_mistyped data
      end
  end.

End Vocabulary.

(** ** A small instance of the libraries

    Stand-ins with the same contracts, small enough to compute with: they
    show that the contracts can be met and serve to run the pipeline on
    concrete inputs. *)
Module Toy.

Definition kdf (n : nat) (salt : list byte) (iters : N) (pw : list byte) : list byte :=
  take n (pw ++ repeat x00 n).

Definition ctr (key nonce data : list byte) : list byte := reverse data.
Definition mac (key nonce ct : list byte) : list byte := key ++ ct.

Definition compress (data : list byte) : list byte := x1f :: x8b :: data.
Definition decompress (blob : list byte) : option (list byte) :=
  match blob with
  | m1 :: m2 :: data =>
      if Byte.eqb m1 x1f && Byte.eqb m2 x8b then Some data else None
  | _ => None
  end.

(** Strings are written one character at a time behind a marker byte and
    closed by a zero byte. *)
Fixpoint put_str (s : string) : list byte :=
  match s with
  | EmptyString => [x00]
  | String c rest => x01 :: byte_of_ascii c :: put_str rest
  end.

Fixpoint get_str (bs : list byte) : option (string * list byte) :=
  match bs with
  | [] => None
  | m :: bs' =>
      if Byte.eqb m x00 then Some (EmptyString, bs')
      else match bs' with
           | [] => None
           | c :: rest =>
               match get_str rest with
               | Some (s, r) => Some (String (ascii_of_byte c) s, r)
               | None => None
               end
           end
  end.

Definition put_val (v : json) : list byte :=
  match v with
  | JStr s => x01 :: put_str s
  | JNum z => [x02; default x00 (Byte.of_N (Z.to_N (z mod 256)))]
  | _ => [x00]
  end.

Definition get_val (bs : list byte) : option (json * list byte) :=
  match bs with
  | [] => None
  | m :: bs' =>
      if Byte.eqb m x01 then
        match get_str bs' with
        | Some (s, r) => Some (JStr s, r)
        | None => None
        end
      else if Byte.eqb m x02 then
        match bs' with
        | b :: r => Some (JNum (Z.of_N (Byte.to_N b)), r)
        | [] => None
        end
      else Some (JNull, bs')
  end.

Definition put_field (kv : string * json) : list byte :=
  put_str kv.1 ++ put_val kv.2.

Definition get_field (bs : list byte) : option ((string * json) * list byte) :=
  match get_str bs with
  | Some (k, r) =>
      match get_val r with
      | Some (v, r') => Some ((k, v), r')
      | None => None
      end
  | None => None
  end.

(** Objects of exactly three fields. *)
Definition dumps (v : json) : list byte :=
  match v with
  | JObj [f1; f2; f3] => put_field f1 ++ put_field f2 ++ put_field f3
  | _ => []
  end.

Definition loads (bs : list byte) : option json :=
  match get_field bs with
  | Some (f1, r1) =>
      match get_field r1 with
      | Some (f2, r2) =>
          match get_field r2 with
          | Some (f3, []) => Some (JObj [f1; f2; f3])
          | _ => None
          end
      | None => None
      end
  | None => None
  end.

(** The text form of bytes: two letters for each byte, one for each half;
    reading it back refuses an odd number of characters and any character
    that is not one of the sixteen letters. *)
Definition nibble_char (n : N) : ascii := ascii_of_N (97 + n).

Definition put_b64 (data : list byte) : string :=
  string_of_list_ascii
    (flat_map (λ b, [nibble_char (Byte.to_N b / 16); nibble_char (Byte.to_N b mod 16)])
              data).

Definition char_nibble (c : ascii) : option N :=
  let n := N_of_ascii c in
  if ((97 <=? n) && (n <? 113))%N then Some (n - 97)%N else None.

Fixpoint get_b64_go (cs : list ascii) : option (list byte) :=
  match cs with
  | [] => Some []
  | c1 :: c2 :: rest =>
      match char_nibble c1, char_nibble c2, get_b64_go rest with
      | Some h, Some l, Some bs =>
          match Byte.of_N (16 * h + l) with
          | Some b => Some (b :: bs)
          | None => None
          end
      | _, _, _ => None
      end
  | _ => None
  end.

Definition get_b64 (s : string) : option (list byte) :=
  get_b64_go (list_ascii_of_string s).

Definition libs : Libs := {|
  PBKDF2HMAC := kdf;
  EAX_ctr := ctr;
  EAX_mac := mac;
  gzip_compress := compress;
  gzip_decompress := decompress;
  json_dumps := dumps;
  json_loads := loads;
  b64encode := put_b64;
  b64decode := get_b64
|}.

Definition HelloWorld : list byte := list_byte_of_string "HelloWorld".

(** A world with one file, an idle terminal and an empty frames directory. *)
Definition world0 : world :=
  mkWorld {[ "docs/hello.txt" := HelloWorld ]} [] [] FRAMERATE0 [].

End Toy.

(** ** A second small instance, with a compressor that tolerates padding

    As the first, but the compressed form records the length of the data,
    and decompression ignores zero bytes after the end of the stream, as
    a gzip reader does. *)
Module Toy2.

Definition compress (data : list byte) : list byte :=
  x1f :: x8b :: replicate (length data) x01 ++ x00 :: data.

Fixpoint read_len (bs : list byte) : option (nat * list byte) :=
  match bs with
  | [] => None
  | b :: rest =>
      if Byte.eqb b x00 then Some (0, rest)
      else match read_len rest with
           | Some (n, body) => Some (S n, body)
           | None => None
           end
  end.

Definition decompress (blob : list byte) : option (list byte) :=
  match blob with
  | m1 :: m2 :: rest =>
      if Byte.eqb m1 x1f && Byte.eqb m2 x8b then
        match read_len rest with
        | Some (n, body) =>
            if (n <=? length body) && forallb (Byte.eqb x00) (drop n body)
            then Some (take n body) else None
        | None => None
        end
      else None
  | _ => None
  end.

Definition libs : Libs := {|
  PBKDF2HMAC := Toy.kdf;
  EAX_ctr := Toy.ctr;
  EAX_mac := Toy.mac;
  gzip_compress := compress;
  gzip_decompress := decompress;
  json_dumps := Toy.dumps;
  json_loads := Toy.loads;
  b64encode := Toy.put_b64;
  b64decode := Toy.get_b64
|}.

End Toy2.

(** A container for the first instance that authenticates under the
    default key, with empty data and a number where the filename should be. *)
Definition numbered_fields : list (string * json) :=
  [("tag", JStr (Toy.put_b64 DEFAULT_KEY)); ("data", JStr "");
   ("filename", JNum 5)].
Definition numbered_bits : list bool :=
  bytes_bin (Toy.compress (Toy.dumps (JObj numbered_fields))).

(** The same world with a user at the terminal who will type one line. *)
Definition prompting_world : world :=
  mkWorld {[ "docs/hello.txt" := Toy.HelloWorld ]} ["secret"] [] FRAMERATE0 [].

(** An action only adds to the log of effects. *)
Definition extends_log {A} (m : M A) : Prop :=
  ∀ w, ∃ evs, log (m w).2 = log w ++ evs.

(** The path of the decoded frame with a given number, as the pattern
    [decoded_frames_%d.png] of the second transcoder run names it; the
    numbers start at 1. *)
Definition decoded_frame_path (index : nat) : string :=
  FRAMES_DIR +:+ "decoded_frames_" +:+ pretty index +:+ ".png".




(** Two decoded frames as a directory may list them, the later one first. *)
Definition frame_one : dirent :=
  mkDirent (decoded_frame_path 1) 10 (mkImage (1, 1) (λ _ _, (0, 0, 0)%Z)).
Definition frame_two : dirent :=
  mkDirent (decoded_frame_path 2) 20 (mkImage (1, 1) (λ _ _, (255, 255, 255)%Z)).

(** A frame of two columns and two rows: light grey, dark grey, a pixel
    with one dark channel, and white. *)
Definition sample_image : Image :=
  mkImage (2, 2)
    (λ x y, match x, y with
            | 0, 0 => (200, 180, 255)%Z
            | 1, 0 => (100, 90, 127)%Z
            | 0, 1 => (255, 255, 127)%Z
            | _, _ => (255, 255, 255)%Z
            end).

(** A frame of the same size after a lossy passage: off-white and
    off-black pixels. *)
Definition noisy_image : Image :=
  mkImage (2, 2)
    (λ x y, match x, y with
            | 0, 0 => (200, 180, 255)%Z
            | 1, 0 => (100, 90, 127)%Z
            | 0, 1 => (3, 0, 120)%Z
            | _, _ => (250, 255, 128)%Z
            end).

(** * Properties *)

(** ** The monad *)

Lemma bind_Ok {A B} (m : M A) (k : A → M B) w a w' :
  m w = (Ok a, w') → (m ≫= k) w = k a w'.
Proof. intros H. unfold mbind, M_bind, bind. by rewrite H. Qed.

Lemma bind_Raise {A B} (m : M A) (k : A → M B) w e w' :
  m w = (Raise e, w') → (m ≫= k) w = (Raise e, w').
Proof. intros H. unfold mbind, M_bind, bind. by rewrite H. Qed.

Lemma bind_emit {B} (e : event) (k : unit → M B) w :
  (emit e ≫= k) w = k tt (add_log w [e]).
Proof. reflexivity. Qed.

Lemma add_log_nil w : add_log w [] = w.
Proof. destruct w. unfold add_log. cbn. by rewrite app_nil_r. Qed.

Lemma add_log_app w evs evs' : add_log (add_log w evs) evs' = add_log w (evs ++ evs').
Proof. unfold add_log. cbn. by rewrite app_assoc. Qed.

Lemma bind_ret {A B} (a : A) (k : A → M B) w : (ret a ≫= k) w = k a w.
Proof. reflexivity. Qed.

Lemma bind_get_FRAMERATE {B} (k : string → M B) w :
  (get_FRAMERATE ≫= k) w = k (FRAMERATE w) w.
Proof. reflexivity. Qed.

Lemma bind_glob_decoded_frames {B} (k : list dirent → M B) w :
  (glob_decoded_frames ≫= k) w = k (glob_frames w) w.
Proof. reflexivity. Qed.

(** ** Bits and bytes *)

Lemma bin_bytes_byte_bin b bits :
  bin_bytes (byte_bin b ++ bits)
  = match bin_bytes bits with Ok bs => Ok (b :: bs) | Raise e => Raise e end.
Proof.
  unfold byte_bin.
  destruct (Byte.to_bits b) as (b0 & b1 & b2 & b3 & b4 & b5 & b6 & b7) eqn:E.
  cbn [app bin_bytes]. rewrite <- E, Byte.of_bits_to_bits. reflexivity.
Qed.

Lemma bin_bytes_bytes_bin bs : bin_bytes (bytes_bin bs) = Ok bs.
Proof.
  induction bs as [|b bs IH]; [reflexivity|].
  unfold bytes_bin in *. cbn [flat_map].
  by rewrite bin_bytes_byte_bin, IH.
Qed.

Lemma length_byte_bin b : length (byte_bin b) = 8.
Proof.
  unfold byte_bin.
  by destruct (Byte.to_bits b) as (b0 & b1 & b2 & b3 & b4 & b5 & b6 & b7).
Qed.

Lemma length_bytes_bin bs : length (bytes_bin bs) = 8 * length bs.
Proof.
  induction bs as [|b bs IH]; [reflexivity|].
  unfold bytes_bin in *. cbn [flat_map length].
  rewrite length_app, length_byte_bin, IH. lia.
Qed.

Lemma bytes_bin_nonempty bs : bs ≠ [] → bytes_bin bs ≠ [].
Proof.
  intros Hbs Hnil. apply (f_equal length) in Hnil.
  rewrite length_bytes_bin in Hnil. destruct bs; [done|]. simpl in Hnil. lia.
Qed.

(** ** The small instance meets the contracts *)

Lemma toy_get_put_str s rest : Toy.get_str (Toy.put_str s ++ rest) = Some (s, rest).
Proof.
  induction s as [|c s IH]; [reflexivity|].
  cbn [Toy.put_str app Toy.get_str]. cbn [Byte.eqb]. simpl.
  by rewrite IH, ascii_of_byte_of_ascii.
Qed.

Lemma toy_get_put_field k s rest :
  Toy.get_field (Toy.put_field (k, JStr s) ++ rest) = Some ((k, JStr s), rest).
Proof.
  unfold Toy.get_field, Toy.put_field. cbn [fst snd Toy.put_val].
  rewrite <- app_assoc, toy_get_put_str. cbn [app Toy.get_val]. simpl.
  by rewrite toy_get_put_str.
Qed.

Lemma toy_b64_byte b :
  forallb (λ c, (N_of_ascii c <? 128)%N)
          [Toy.nibble_char (Byte.to_N b / 16); Toy.nibble_char (Byte.to_N b mod 16)] = true
  ∧ Toy.char_nibble (Toy.nibble_char (Byte.to_N b / 16)) = Some (Byte.to_N b / 16)%N
  ∧ Toy.char_nibble (Toy.nibble_char (Byte.to_N b mod 16)) = Some (Byte.to_N b mod 16)%N
  ∧ Byte.of_N (16 * (Byte.to_N b / 16) + Byte.to_N b mod 16) = Some b.
Proof. destruct b; vm_compute; done. Qed.

Lemma toy_b64_roundtrip data :
  is_ascii (Toy.put_b64 data) = true ∧ Toy.get_b64 (Toy.put_b64 data) = Some data.
Proof.
  unfold is_ascii, Toy.get_b64, Toy.put_b64.
  rewrite list_ascii_of_string_of_list_ascii.
  induction data as [|b data [IH1 IH2]]; [done|].
  destruct (toy_b64_byte b) as (Ha & Hh & Hl & Hb).
  cbn [flat_map app]. split.
  - cbn [forallb] in *. rewrite IH1.
    by apply andb_prop in Ha as [-> Ha]; apply andb_prop in Ha as [-> _].
  - cbn [Toy.get_b64_go]. by rewrite Hh, Hl, IH2, Hb.
Qed.

Lemma toy_libs_ok : LibsOK Toy.libs.
Proof.
  split.
  - intros n salt iters pw. cbv [PBKDF2HMAC Toy.libs]. unfold Toy.kdf.
    rewrite length_take, length_app, repeat_length. lia.
  - intros key nonce data. cbv [EAX_ctr Toy.libs]. unfold Toy.ctr.
    rewrite reverse_involutive. reflexivity.
  - reflexivity.
  - done.
  - intros tag data filename. cbv [json_loads json_dumps Toy.libs].
    cbv zeta. unfold Toy.loads, Toy.dumps.
    rewrite toy_get_put_field, toy_get_put_field.
    rewrite <- (app_nil_r (Toy.put_field _)), toy_get_put_field. reflexivity.
  - intros data. destruct (toy_b64_roundtrip data) as [Ha Hd].
    unfold base64_b64decode. cbv [b64decode b64encode Toy.libs].
    by rewrite Ha, Hd.
Qed.

(** ** Frame decoding *)

Lemma foldl_snoc {A B} (f : A → B) (l : list A) (acc : list B) :
  foldl (λ bits x, bits ++ [f x]) acc l = acc ++ map f l.
Proof.
  revert acc. induction l as [|x l IH]; intros acc; cbn [foldl map].
  - by rewrite app_nil_r.
  - by rewrite IH, <- app_assoc.
Qed.

Lemma foldl_rows {A B C} (f : A → B → C) (xs : list A) (ys : list B) (acc : list C) :
  foldl (λ bits y, foldl (λ bits x, bits ++ [f x y]) bits xs) acc ys
  = acc ++ concat (map (λ y, map (λ x, f x y) xs) ys).
Proof.
  revert acc. induction ys as [|y ys IH]; intros acc; cbn [foldl map concat].
  - by rewrite app_nil_r.
  - by rewrite IH, foldl_snoc, <- app_assoc.
Qed.

(** The two nested loops visit the pixels row by row. *)
Lemma get_bits_from_image_rows image :
  get_bits_from_image image
  = concat (map (λ y, map (λ x, pixel_bin_rep (im_px image x y))
                          (seq 0 (im_size image).1))
                (seq 0 (im_size image).2)).
Proof.
  unfold get_bits_from_image. destruct (im_size image) as [width height].
  cbn [fst snd].
  by rewrite (foldl_rows (λ x y, pixel_bin_rep (im_px image x y))).
Qed.

Lemma rows_index {A} (g : nat → A) (w h : nat) :
  concat (map (λ y, map (λ x, g (y * w + x)) (seq 0 w)) (seq 0 h))
  = map g (seq 0 (h * w)).
Proof.
  induction h as [|h IH]; [reflexivity|].
  rewrite seq_S, map_app, concat_app, IH. cbn [map concat plus].
  rewrite app_nil_r.
  replace (S h * w) with (h * w + w) by lia.
  rewrite seq_app, map_app. f_equal. cbn [plus].
  apply list_eq. intros i. rewrite !list_lookup_fmap.
  destruct (decide (i < w)) as [Hi|Hi].
  - by rewrite !lookup_seq_lt by lia.
  - by rewrite !lookup_seq_ge by lia.
Qed.

Lemma row_major x y w :
  x < w → (y * w + x) / w = y ∧ (y * w + x) `mod` w = x.
Proof.
  intros Hx. split; symmetry.
  - apply (Nat.div_unique _ _ _ x); lia.
  - apply (Nat.mod_unique _ _ y); lia.
Qed.

Lemma get_bits_from_image_lookup image x y :
  x < (im_size image).1 → y < (im_size image).2 →
  get_bits_from_image image !! (y * (im_size image).1 + x)
  = Some (pixel_bin_rep (im_px image x y)).
Proof.
  intros Hx Hy. rewrite get_bits_from_image_rows.
  set (w := (im_size image).1) in *. set (h := (im_size image).2) in *.
  set (g := λ i, pixel_bin_rep (im_px image (i `mod` w) (i / w))).
  assert (Hrows :
    map (λ y, map (λ x, pixel_bin_rep (im_px image x y)) (seq 0 w)) (seq 0 h)
    = map (λ y, map (λ x, g (y * w + x)) (seq 0 w)) (seq 0 h)).
  { apply map_ext_in. intros y' _. apply map_ext_in. intros x' Hx'.
    apply in_seq in Hx'. unfold g.
    destruct (row_major x' y' w) as [-> ->]; [lia|done]. }
  rewrite Hrows, rows_index, list_lookup_fmap, lookup_seq_lt by nia.
  cbn. unfold g. by destruct (row_major x y w) as [-> ->].
Qed.

Lemma pixel_bin_rep_spec p0 p1 p2 :
  pixel_bin_rep (p0, p1, p2) = true
  ↔ closer_to_white p0 ∧ closer_to_white p1 ∧ closer_to_white p2.
Proof.
  unfold pixel_bin_rep, closer_to_white.
  rewrite !andb_true_iff, !bool_decide_eq_true. tauto.
Qed.

Lemma closer_to_white_8bit c : (0 ≤ c ≤ 255)%Z → closer_to_white c ↔ (128 ≤ c)%Z.
Proof. unfold closer_to_white. lia. Qed.

(** C6. In the bit string decoded from a frame, the bit of the pixel at
    column [x] and row [y] is 1 exactly when each of the three channels of
    that pixel is closer, by absolute difference, to 255 than to 0, and 0
    otherwise. *)
Theorem pixel_classification image x y :
  x < (im_size image).1 → y < (im_size image).2 →
  ∃ bit, get_bits_from_image image !! (y * (im_size image).1 + x) = Some bit
    ∧ (bit = true ↔ closer_to_white (im_px image x y).1.1
                     ∧ closer_to_white (im_px image x y).1.2
                     ∧ closer_to_white (im_px image x y).2)
    ∧ (bit = false ↔ ¬ (closer_to_white (im_px image x y).1.1
                        ∧ closer_to_white (im_px image x y).1.2
                        ∧ closer_to_white (im_px image x y).2)).
Proof.
  intros Hx Hy. eexists. split; [by apply get_bits_from_image_lookup|].
  destruct (im_px image x y) as [[p0 p1] p2]. cbn [fst snd].
  pose proof (pixel_bin_rep_spec p0 p1 p2) as Hspec.
  split; [exact Hspec|].
  rewrite <- Hspec. by destruct (pixel_bin_rep (p0, p1, p2)).
Qed.

Lemma pixel_classification_witness :
  1 < (im_size sample_image).1 ∧ 0 < (im_size sample_image).2
  ∧ ∃ bit, get_bits_from_image sample_image !! (0 * (im_size sample_image).1 + 1)
           = Some bit
    ∧ (bit = true ↔ closer_to_white (im_px sample_image 1 0).1.1
                     ∧ closer_to_white (im_px sample_image 1 0).1.2
                     ∧ closer_to_white (im_px sample_image 1 0).2)
    ∧ (bit = false ↔ ¬ (closer_to_white (im_px sample_image 1 0).1.1
                        ∧ closer_to_white (im_px sample_image 1 0).1.2
                        ∧ closer_to_white (im_px sample_image 1 0).2)).
Proof.
  split; [simpl; lia|]. split; [simpl; lia|].
  apply (pixel_classification sample_image 1 0); simpl; lia.
Defined.

Example get_bits_from_sample_image :
  get_bits_from_image sample_image = [true; false; false; true].
Proof. reflexivity. Qed.

(** ** Frame encoding *)

Lemma encodeFrame_exact W H bits :
  length bits = W * H →
  encodeFrame (W, H) bits = Ok (mkBitmap (W, H) (map int_of_bit bits)).
Proof.
  intros Hlen. unfold encodeFrame, putdata, Image_new. cbn [bm_data bm_size fst snd].
  rewrite length_replicate, length_map, Hlen, Nat.ltb_irrefl.
  rewrite drop_ge by (rewrite length_replicate; lia). by rewrite app_nil_r.
Qed.

Lemma pixel_bin_rep_render_bit b :
  pixel_bin_rep (if (int_of_bit b =? 0)%Z then (0, 0, 0)%Z else (255, 255, 255)%Z) = b.
Proof. by destruct b. Qed.

(** The decoded bits, pixel by pixel in reading order. *)
Lemma get_bits_from_image_flat image :
  get_bits_from_image image
  = map (λ i, pixel_bin_rep (im_px image (i `mod` (im_size image).1)
                                         (i / (im_size image).1)))
        (seq 0 ((im_size image).2 * (im_size image).1)).
Proof.
  rewrite get_bits_from_image_rows.
  set (w := (im_size image).1). set (h := (im_size image).2).
  rewrite <- (rows_index (λ i, pixel_bin_rep (im_px image (i `mod` w) (i / w))) w h).
  f_equal. apply map_ext_in. intros y _. apply map_ext_in. intros x Hx.
  apply in_seq in Hx. by destruct (row_major x y w) as [-> ->]; [lia|].
Qed.


Lemma decode_render W H (bits : list bool) :
  length bits = W * H →
  get_bits_from_image (render (mkBitmap (W, H) (map int_of_bit bits))) = bits.
Proof.
  intros Hlen. rewrite get_bits_from_image_flat.
  cbn [render im_size im_px bm_size bm_data fst snd].
  apply list_eq. intros i. rewrite list_lookup_fmap.
  destruct (decide (i < H * W)) as [Hi|Hi].
  - rewrite lookup_seq_lt by done. cbn.
    assert (0 < W) as HW by (destruct W; lia).
    replace (i / W * W + i `mod` W) with i by (pose proof (Nat.div_mod_eq i W); lia).
    destruct (lookup_lt_is_Some_2 bits i) as [b Hb]; [lia|].
    rewrite list_lookup_fmap, Hb. cbn. by rewrite pixel_bin_rep_render_bit.
  - rewrite lookup_seq_ge by lia. symmetry. apply lookup_ge_None. lia.
Qed.

(** ** Sequencer, decode direction *)

Lemma sorted_by_Permutation {A} (key : A → Z) (l : list A) : sorted_by key l ≡ₚ l.
Proof.
  unfold sorted_by. induction l as [|x l IH]; [done|]. cbn [foldr].
  rewrite <- IH at 2. generalize (foldr (insert_by key) [] l). clear.
  intros l. induction l as [|y l IH]; [done|]. cbn [insert_by].
  destruct (key x <=? key y)%Z; [done|]. by rewrite IH, Permutation_swap.
Qed.

Lemma insert_by_Sorted {A} (key : A → Z) x (l : list A) :
  Sorted (λ a b, key a ≤ key b)%Z l →
  Sorted (λ a b, key a ≤ key b)%Z (insert_by key x l).
Proof.
  induction 1 as [|y l Hl IH Hhd]; cbn [insert_by].
  - by repeat constructor.
  - destruct (Z.leb_spec (key x) (key y)).
    + repeat constructor; done.
    + constructor; [done|]. destruct Hhd as [|z l' Hz]; cbn [insert_by].
      * constructor. lia.
      * destruct (Z.leb_spec (key x) (key z)); constructor; lia.
Qed.

(** The frames are read in the order of their modification times. *)
Lemma sorted_by_Sorted {A} (key : A → Z) (l : list A) :
  Sorted (λ a b, key a ≤ key b)%Z (sorted_by key l).
Proof.
  unfold sorted_by. induction l as [|x l IH]; cbn [foldr]; [constructor|].
  by apply insert_by_Sorted.
Qed.

(** A listing that is already in the order of the times is kept as it is. *)
Lemma sorted_by_id {A} (key : A → Z) (l : list A) :
  Sorted (λ a b, key a ≤ key b)%Z l → sorted_by key l = l.
Proof.
  unfold sorted_by. induction 1 as [|x l Hl IH Hhd]; [done|]. cbn [foldr].
  rewrite IH. destruct Hhd as [|y l' Hy]; [done|]. cbn [insert_by].
  destruct (Z.leb_spec (key x) (key y)); [done|lia].
Qed.




Lemma concat_loop (image_sequence : list Image) :
  ∀ (rest : list Image) (k : nat) (bits : list bool) w,
    drop k image_sequence = rest →
    for_in (seq k (length rest))
      (λ bits index,
         image ← of_option (image_sequence !! index) IndexError;
         ret (bits ++ get_bits_from_image image))
      bits w
    = (Ok (bits ++ concat (map get_bits_from_image rest)), w).
Proof.
  induction rest as [|image rest IH]; intros k bits w Hdrop.
  - cbn. by rewrite app_nil_r.
  - cbn [length seq for_in].
    assert (image_sequence !! k = Some image) as Hk.
    { rewrite <- (Nat.add_0_r k), <- lookup_drop, Hdrop. done. }
    unfold mbind at 1, M_bind, bind. rewrite Hk. cbn [of_option].
    unfold mbind at 1, M_bind, bind. cbn [ret].
    rewrite IH.
    + cbn [map concat]. by rewrite <- app_assoc.
    + replace (S k) with (k + 1) by lia. by rewrite <- drop_drop, Hdrop.
Qed.


(** What [get_bits_from_video] returns and does when the transcoder left
    frames. *)
Lemma get_bits_from_video_run video_filepath w :
  glob_frames w ≠ [] →
  get_bits_from_video video_filepath w
  = (Ok (concat (map get_bits_from_image
                     (map d_image (sorted_by d_mtime (glob_frames w))))),
     add_log w
       [EPrint "Reading video...";
        ESystem ("ffmpeg -i " +:+ video_filepath
                 +:+ " -c:v libx264rgb -filter:v fps=fps=" +:+ FRAMERATE w
                 +:+ " " +:+ TEMPVIDEO);
        ESystem ("ffmpeg -i " +:+ TEMPVIDEO +:+ " ./fvid_frames/decoded_frames_%d.png");
        ERemove TEMPVIDEO;
        EPrint "Bits are in place"]).
Proof.
  intros Hframes.
  unfold get_bits_from_video, print, os_system.
  rewrite bind_emit, bind_get_FRAMERATE, !bind_emit.
  unfold mbind at 1, M_bind, bind, os_remove. cbn [glob_frames add_log].
  destruct (glob_frames w) as [|frame found] eqn:Hfound; [done|].
  cbn [emit]. rewrite bind_glob_decoded_frames, bind_emit.
  cbn [glob_frames add_log FRAMERATE]. rewrite Hfound.
  rewrite (concat_loop _ (map d_image (sorted_by d_mtime (frame :: found))) 0 [])
    by done.
  unfold add_log. cbn [files tty glob_frames FRAMERATE log].
  by rewrite Hfound, <- !app_assoc.
Qed.

(** ... and when it left none: the intermediate video is not there to be
    removed. *)
Lemma get_bits_from_video_no_frames video_filepath w :
  glob_frames w = [] →
  get_bits_from_video video_filepath w
  = (Raise (FileNotFoundError TEMPVIDEO),
     add_log w
       [EPrint "Reading video...";
        ESystem ("ffmpeg -i " +:+ video_filepath
                 +:+ " -c:v libx264rgb -filter:v fps=fps=" +:+ FRAMERATE w
                 +:+ " " +:+ TEMPVIDEO);
        ESystem ("ffmpeg -i " +:+ TEMPVIDEO +:+ " ./fvid_frames/decoded_frames_%d.png")]).
Proof.
  intros Hframes.
  unfold get_bits_from_video, print, os_system.
  rewrite bind_emit, bind_get_FRAMERATE, !bind_emit.
  unfold mbind at 1, M_bind, bind, os_remove. cbn [glob_frames add_log].
  rewrite Hframes. unfold add_log. cbn [files tty glob_frames FRAMERATE log].
  by rewrite Hframes, <- !app_assoc.
Qed.

(** Either way the two transcoder runs have been started. *)
Lemma get_bits_from_video_log video_filepath w :
  ∃ r evs,
    get_bits_from_video video_filepath w
    = (r, add_log w
            ([EPrint "Reading video...";
              ESystem ("ffmpeg -i " +:+ video_filepath
                       +:+ " -c:v libx264rgb -filter:v fps=fps=" +:+ FRAMERATE w
                       +:+ " " +:+ TEMPVIDEO);
              ESystem ("ffmpeg -i " +:+ TEMPVIDEO
                       +:+ " ./fvid_frames/decoded_frames_%d.png")]
             ++ evs)).
Proof.
  destruct (glob_frames w) as [|frame found] eqn:Hfound.
  - eexists _, []. by rewrite get_bits_from_video_no_frames.
  - eexists _, [_; _]. by rewrite get_bits_from_video_run by (by rewrite Hfound).
Qed.




(** The directory may list the frames in any order; they are read by
    modification time. *)
Example get_bits_from_video_by_mtime :
  (get_bits_from_video "video.mp4"
     (mkWorld ∅ [] [mkDirent (decoded_frame_path 2) 20 sample_image;
                    mkDirent (decoded_frame_path 1) 10
                             (mkImage (1, 1) (λ _ _, (0, 0, 0)%Z))]
              FRAMERATE0 [])).1
  = Ok [false; true; false; false; true].
Proof. vm_compute. reflexivity. Qed.

(** Without frames there is no intermediate video to remove. *)
Example get_bits_from_video_nothing_transcoded :
  (get_bits_from_video "video.mp4" Toy.world0).1 = Raise (FileNotFoundError TEMPVIDEO).
Proof. reflexivity. Qed.

(** ** Sequencer, encode direction *)

Lemma ceil_div_step a n : 0 < n → 0 < a → ceil_div a n = S (ceil_div (a - n) n).
Proof.
  intros Hn Ha. unfold ceil_div. destruct (decide (n ≤ a)) as [Hle|Hlt].
  - replace (a + n - 1) with (a - n + n - 1 + 1 * n) by lia.
    rewrite Nat.div_add by lia. lia.
  - replace (a - n) with 0 by lia. cbn [plus].
    rewrite (Nat.div_small (n - 1) n) by lia.
    symmetry. apply (Nat.div_unique _ _ 1 (a - 1)); lia.
Qed.

Lemma ceil_div_0 n : 0 < n → ceil_div 0 n = 0.
Proof. intros Hn. unfold ceil_div. cbn [plus]. apply Nat.div_small. lia. Qed.

Lemma ceil_div_bounds a n :
  0 < n → 0 < a → (ceil_div a n - 1) * n < a ∧ a ≤ ceil_div a n * n.
Proof.
  intros Hn Ha. unfold ceil_div.
  pose proof (Nat.div_mod_eq (a + n - 1) n) as Heq.
  pose proof (Nat.mod_upper_bound (a + n - 1) n) as Hlt.
  nia.
Qed.

(** [range(i, stop, n)] counts [i, i + n, i + 2n, ...] below [stop]. *)
Lemma range_go_spec n fuel i stop :
  0 < n → stop - i ≤ fuel →
  range_go fuel i stop n = map (λ k, i + k * n) (seq 0 (ceil_div (stop - i) n)).
Proof.
  intros Hn. revert i. induction fuel as [|fuel IH]; intros i Hfuel.
  - replace (stop - i) with 0 by lia. by rewrite ceil_div_0.
  - cbn [range_go]. destruct (Nat.ltb_spec i stop) as [Hlt|Hge].
    + rewrite IH by lia. rewrite (ceil_div_step (stop - i) n) by lia.
      cbn [seq map]. rewrite Nat.add_0_r. f_equal.
      replace (stop - (i + n)) with (stop - i - n) by lia.
      rewrite <- fmap_S_seq, <- list_fmap_compose. apply list_fmap_ext.
      intros _ k _. cbn. lia.
    + replace (stop - i) with 0 by lia. by rewrite ceil_div_0.
Qed.

Lemma split_string_by_n_spec {A} (bitstring : list A) n :
  0 < n →
  split_string_by_n bitstring n
  = Ok (map (λ k, slice bitstring (k * n) (k * n + n))
            (seq 0 (ceil_div (length bitstring) n))).
Proof.
  intros Hn. unfold split_string_by_n, py_range.
  destruct (Nat.eqb_spec n 0) as [->|_]; [lia|].
  rewrite range_go_spec by lia. rewrite Nat.sub_0_r.
  rewrite (foldl_snoc (λ i, slice bitstring i (i + n))), app_nil_l.
  rewrite <- list_fmap_compose. reflexivity.
Qed.


Lemma length_chunk {A} (bitstring : list A) n k :
  length (slice bitstring (k * n) (k * n + n))
  = Nat.min n (length bitstring - k * n).
Proof.
  unfold slice. rewrite length_take, length_drop. lia.
Qed.

Lemma list_pop_reverse {A} (x : A) (rest : list A) w :
  list_pop (reverse (x :: rest)) w = (Ok (x, reverse rest), w).
Proof. unfold list_pop. by rewrite reverse_involutive. Qed.

(** The saving loop pops the reversed list from its end, so the chunks
    leave in their original order, numbered from [index] on. *)
Lemma save_loop W H :
  ∀ (rest : list (list bool)) (js : list nat) (index : nat) w,
    length js = length rest →
    Forall (λ chunk, length chunk = W * H) rest →
    for_in js
      (λ '(bitlist, index) _,
         '(bitl, bitlist) ← list_pop bitlist;
         let image_bits := map int_of_bit bitl in
         let image := Image_new (W, H) in
         image ← lift (putdata image image_bits);
         emit (ESave (encoded_frame_path index) image);;
         ret (bitlist, index + 1))
      (reverse rest, index) w
    = (Ok ([], index + length rest),
       add_log w (imap (λ i chunk, ESave (encoded_frame_path (index + i))
                                         (mkBitmap (W, H) (map int_of_bit chunk)))
                       rest)).
Proof.
  induction rest as [|chunk rest IH]; intros js index w Hjs Hfull.
  - destruct js; [|done]. cbn. by rewrite add_log_nil, Nat.add_0_r.
  - destruct js as [|j js]; [done|]. cbn [for_in].
    apply Forall_cons in Hfull as [Hchunk Hfull].
    unfold mbind at 1, M_bind, bind.
    unfold mbind at 1, M_bind, bind. rewrite list_pop_reverse.
    pose proof (encodeFrame_exact W H chunk Hchunk) as Henc.
    unfold encodeFrame in Henc.
    unfold mbind at 1, M_bind, bind, lift. rewrite Henc.
    rewrite bind_emit. cbn [ret].
    rewrite IH by (cbn in Hjs; auto with lia).
    rewrite add_log_app. cbn [imap length app]. rewrite Nat.add_0_r.
    replace (index + 1 + length rest) with (index + S (length rest)) by lia.
    do 3 f_equal. apply imap_ext. intros i c _. cbn.
    by replace (index + 1 + i) with (index + S i) by lia.
Qed.

Lemma saved_app evs evs' : saved (evs ++ evs') = saved evs ++ saved evs'.
Proof. apply omap_app. Qed.

Lemma saved_imap {A} (f : nat → A → string * Bitmap) (l : list A) :
  saved (imap (λ i a, ESave (f i a).1 (f i a).2) l) = imap f l.
Proof.
  revert f. induction l as [|a l IH]; intros f; [done|].
  cbn [imap]. unfold saved in *. cbn [omap]. rewrite <- (IH (f ∘ S)).
  by destruct (f 0 a).
Qed.

(** The run of [make_image_sequence]: three messages, then one saved
    frame per padded chunk, numbered from 1. *)
Lemma make_image_sequence_run W H (bitstring : list bool) (w : world) :
  bitstring ≠ [] → 0 < W * H →
  let n := W * H in
  let m := ceil_div (length bitstring) n in
  ∃ padded : list (list bool),
    length padded = m
    ∧ (∀ i, i < m →
         padded !! i
         = Some (slice bitstring (i * n) (i * n + n)
                 ++ replicate (n - length (slice bitstring (i * n) (i * n + n))) false))
    ∧ make_image_sequence bitstring (W, H) w
      = (Ok tt,
         add_log w
           ([EPrint "Making image sequence"; EPrint "Cutting..."; EPrint "Saving frames..."]
            ++ imap (λ i chunk, ESave (encoded_frame_path (1 + i))
                                      (mkBitmap (W, H) (map int_of_bit chunk)))
                    padded)).
Proof.
  intros Hne Hn n m. set (L := length bitstring) in *.
  assert (0 < L) as HL by (subst L; destruct bitstring; [done|cbn; lia]).
  destruct (ceil_div_bounds L n Hn HL) as [Hlo Hhi]. fold m in Hlo, Hhi.
  assert (0 < m) as Hm by (destruct m; [cbn in Hhi; lia|lia]).
  set (chunks := map (λ k, slice bitstring (k * n) (k * n + n)) (seq 0 m)).
  set (final := slice bitstring ((m - 1) * n) ((m - 1) * n + n)).
  set (padded := <[m - 1 := final ++ replicate (n - length final) false]> chunks).
  assert (length chunks = m) as Hlen by (subst chunks; by rewrite length_map, length_seq).
  assert (∀ i, i < m → chunks !! i = Some (slice bitstring (i * n) (i * n + n)))
    as Hchunks.
  { intros i Hi. subst chunks. by rewrite list_lookup_fmap, lookup_seq_lt. }
  assert (∀ i, i < m →
            padded !! i
            = Some (slice bitstring (i * n) (i * n + n)
                    ++ replicate (n - length (slice bitstring (i * n) (i * n + n))) false))
    as Hpadded.
  { intros i Hi. subst padded. destruct (decide (i = m - 1)) as [->|Hne'].
    - by rewrite list_lookup_insert_eq by lia.
    - rewrite list_lookup_insert_ne, Hchunks by lia.
      rewrite (length_chunk bitstring n i).
      replace (n - Nat.min n (length bitstring - i * n)) with 0 by (fold L; nia).
      by rewrite app_nil_r. }
  assert (Forall (λ chunk, length chunk = W * H) padded) as Hfull.
  { apply Forall_lookup. intros i chunk Hi.
    assert (i < m) as Him.
    { apply lookup_lt_Some in Hi. subst padded. rewrite length_insert in Hi. lia. }
    rewrite Hpadded in Hi by done. injection Hi as <-.
    rewrite length_app, length_replicate, length_chunk. fold n. lia. }
  exists padded. split; [|split; [done|]].
  - subst padded. by rewrite length_insert.
  - unfold make_image_sequence, print. rewrite !bind_emit.
    unfold mbind at 1, M_bind, bind, lift.
    rewrite split_string_by_n_spec by done. fold n L m chunks.
    assert (last chunks = Some final) as ->.
    { rewrite last_lookup, Hlen, Hchunks by lia.
      by replace (Init.Nat.pred m) with (m - 1) by lia. }
    cbn [of_option]. rewrite bind_ret, bind_emit. rewrite Hlen. fold padded.
    erewrite bind_Ok; [|apply save_loop; [by rewrite length_seq, length_reverse|done]].
    cbn [ret]. by rewrite !add_log_app.
Qed.

Lemma ceil_div_same n : 0 < n → ceil_div n n = 1.
Proof.
  intros Hn. unfold ceil_div. symmetry.
  apply (Nat.div_unique _ _ 1 (n - 1)); lia.
Qed.

(** C2. Encoding a chunk of exactly [W * H] bits, [W * H] being positive,
    saves one frame, of size [W] by [H], in which the pixel at column [x]
    and row [y] stores bit [y * W + x]; a faithful picture of that frame is
    pure white where the bit is 1 and pure black where it is 0, and
    decoding it gives the chunk back. *)
Theorem frame_roundtrip W H (bits : list bool) (w : world) :
  length bits = W * H → 0 < W * H →
  ∃ evs frame,
    make_image_sequence bits (W, H) w = (Ok tt, add_log w evs)
    ∧ saved evs = [(encoded_frame_path 1, frame)]
    ∧ bm_size frame = (W, H)
    ∧ (∀ x y (bit : bool), x < W → y < H → bits !! (y * W + x) = Some bit →
         bm_data frame !! (y * W + x) = Some (int_of_bit bit)
         ∧ im_px (render frame) x y
           = if bit then (255, 255, 255)%Z else (0, 0, 0)%Z)
    ∧ get_bits_from_image (render frame) = bits.
Proof.
  intros Hlen Hn.
  assert (bits ≠ []) as Hne by (intros ->; cbn in Hlen; lia).
  destruct (make_image_sequence_run W H bits w Hne Hn)
    as (padded & Hpadded_len & Hpadded & Hrun).
  rewrite Hlen, ceil_div_same in Hpadded_len, Hpadded by done.
  assert (padded = [bits]) as ->.
  { destruct padded as [|chunk [|]]; try done.
    specialize (Hpadded 0 (Nat.lt_0_1)). cbn [lookup list_lookup] in Hpadded.
    injection Hpadded as ->. f_equal. unfold slice. cbn [Nat.mul Nat.add].
    rewrite Nat.sub_0_r, drop_0, take_ge by lia.
    rewrite Hlen, Nat.sub_diag. apply app_nil_r. }
  cbn [imap] in Hrun.
  eexists _, (mkBitmap (W, H) (map int_of_bit bits)).
  split; [exact Hrun|]. split; [reflexivity|]. split; [reflexivity|]. split.
  - intros x y bit Hx Hy Hbit. cbn [render im_px bm_size bm_data fst].
    rewrite list_lookup_fmap, Hbit. split; [done|]. by destruct bit.
  - by apply decode_render.
Qed.

Lemma frame_roundtrip_witness :
  length [true; false; false; true; true; true] = 3 * 2
  ∧ 0 < 3 * 2
  ∧ ∃ evs frame,
      make_image_sequence [true; false; false; true; true; true] (3, 2) Toy.world0
      = (Ok tt, add_log Toy.world0 evs)
      ∧ saved evs = [(encoded_frame_path 1, frame)]
      ∧ bm_size frame = (3, 2)
      ∧ (∀ x y (bit : bool), x < 3 → y < 2 →
           [true; false; false; true; true; true] !! (y * 3 + x) = Some bit →
           bm_data frame !! (y * 3 + x) = Some (int_of_bit bit)
           ∧ im_px (render frame) x y
             = if bit then (255, 255, 255)%Z else (0, 0, 0)%Z)
      ∧ get_bits_from_image (render frame) = [true; false; false; true; true; true].
Proof.
  split; [reflexivity|]. split; [lia|].
  apply (frame_roundtrip 3 2 [true; false; false; true; true; true] Toy.world0);
    [reflexivity|lia].
Defined.



Example make_image_sequence_six_bits :
  saved (log (make_image_sequence [true; false; true; true; false; true] (2, 2)
                                  Toy.world0).2)
  = [("./fvid_frames/encoded_frames_1.png", mkBitmap (2, 2) [1; 0; 1; 1]%Z);
     ("./fvid_frames/encoded_frames_2.png", mkBitmap (2, 2) [0; 1; 0; 0]%Z)].
Proof. vm_compute. reflexivity. Qed.

Example split_string_by_n_zero : split_string_by_n [true; false] 0 = Raise ValueError.
Proof. reflexivity. Qed.

Example make_image_sequence_empty :
  (make_image_sequence [] (2, 2) Toy.world0).1 = Raise IndexError.
Proof. reflexivity. Qed.

(** ** The container *)

Section Container.
Context {L : Libs}.

Lemma bind_lift {A B} (r : result A) (k : A → M B) w :
  (lift r ≫= k) w = match r with Ok a => k a w | Raise e => (Raise e, w) end.
Proof. unfold mbind, M_bind, bind, lift. by destruct r. Qed.

Lemma bind_of_option {A B} (o : option A) (e : exn) (k : A → M B) w :
  (of_option o e ≫= k) w = match o with Some a => k a w | None => (Raise e, w) end.
Proof. unfold mbind, M_bind, bind, of_option. by destruct o. Qed.

Lemma bind_raise {A B} (e : exn) (k : A → M B) w : (raise e ≫= k) w = (Raise e, w).
Proof. reflexivity. Qed.

Lemma bind_AES_new {B} key nonce (k : cipher → M B) w :
  valid_key_length key →
  (AES_new key nonce ≫= k) w = k (mkCipher key nonce []) (add_log w [EAesNew key]).
Proof.
  intros Hkey. unfold AES_new. unfold mbind at 1, M_bind, bind.
  rewrite bind_emit. by rewrite bool_decide_eq_true_2.
Qed.

Lemma get_password_Some P w :
  get_password (Some P) w
  = (Ok (derive P),
     add_log w (if bool_decide (P = "default") then [] else [EKdf (str_encode P)])).
Proof.
  unfold get_password, derive.
  destruct (decide (P = "default")) as [->|Hne].
  - rewrite !bool_decide_eq_true_2 by done. cbn. by rewrite add_log_nil.
  - rewrite !bool_decide_eq_false_2 by congruence. reflexivity.
Qed.

Lemma DEFAULT_KEY_length : length DEFAULT_KEY = 32.
Proof. reflexivity. Qed.

Lemma derive_valid `{!LibsOK L} P : valid_key_length (derive P).
Proof.
  unfold valid_key_length, derive. case_bool_decide.
  - rewrite DEFAULT_KEY_length. set_solver.
  - rewrite PBKDF2HMAC_length. set_solver.
Qed.

(** What [get_bits_from_file] returns and does. *)
Lemma get_bits_from_file_spec filepath key B w :
  files w !! filepath = Some B → B ≠ [] → valid_key_length key →
  let ciphertext := EAX_ctr key SALT B in
  let tag := EAX_mac key SALT ciphertext in
  get_bits_from_file filepath key w
  = (Ok (bytes_bin (gzip_compress
                      (json_dumps (container_record tag ciphertext filepath)))),
     add_log w [EPrint "Reading file..."; EAesNew key; EPrint "Zipping..."]).
Proof.
  intros Hfile Hne Hkey ciphertext tag. unfold get_bits_from_file, print.
  rewrite bind_emit. unfold mbind at 1, M_bind, bind, read_file.
  cbn [files add_log]. rewrite Hfile.
  destruct B as [|b B]; [done|].
  fold (add_log w [EPrint "Reading file..."]).
  rewrite bind_AES_new by done. cbn [encrypt_and_digest c_key c_nonce].
  rewrite bind_emit. cbn [ret]. by rewrite !add_log_app.
Qed.

(** An empty file cannot be mapped into memory: nothing is encoded. *)
Lemma get_bits_from_file_empty filepath key w :
  files w !! filepath = Some [] →
  get_bits_from_file filepath key w
  = (Raise ValueError, add_log w [EPrint "Reading file..."]).
Proof.
  intros Hfile. unfold get_bits_from_file, print.
  rewrite bind_emit. unfold mbind at 1, M_bind, bind, read_file.
  cbn [files add_log]. by rewrite Hfile.
Qed.

Lemma base64_b64decode_raises s e :
  base64_b64decode s = Raise e → e = BinasciiError ∨ e = ValueError.
Proof.
  unfold base64_b64decode. destruct (is_ascii s); [|intros [= <-]; by right].
  destruct (b64decode s); [done|intros [= <-]; by left].
Qed.

(** What [save_bits_to_file] does with a container that parses. *)
Lemma save_bits_to_file_parsed file_path bits key w blob raw fields t d tag ciphertext filename :
  bin_bytes bits = Ok blob →
  gzip_decompress blob = Some raw →
  json_loads raw = Some (JObj fields) →
  assoc "tag" fields = Some (JStr t) → base64_b64decode t = Ok tag →
  assoc "data" fields = Some (JStr d) → base64_b64decode d = Ok ciphertext →
  assoc "filename" fields = Some filename →
  valid_key_length key →
  let w' := add_log w [EPrint "Unziping..."; EAesNew key; EPrint "Checking integrity..."] in
  save_bits_to_file file_path bits key w
  = if bool_decide (EAX_mac key SALT ciphertext = tag)
    then write_to (match file_path with None => filename | Some p => JStr p end)
                  (EAX_ctr key SALT ciphertext) w'
    else (Raise (WrongPassword "Key incorrect or message corrupted"), w').
Proof.
  intros Hbits Hgz Hjson Htag Ht Hdata Hd Hname Hkey w'.
  unfold save_bits_to_file, print. rewrite bind_emit, bind_lift, Hbits.
  rewrite bind_of_option, Hgz, bind_of_option, Hjson. cbn [getitem].
  rewrite bind_of_option, Htag. cbn [b64decode_value].
  rewrite bind_lift, Ht, bind_of_option, Hdata. cbn [b64decode_value].
  rewrite bind_lift, Hd, bind_of_option, Hname.
  rewrite bind_AES_new by done. cbn [decrypt c_key c_nonce].
  rewrite bind_emit, !add_log_app. cbn [app]. fold w'.
  unfold mbind, M_bind, bind, except_ValueError, verify. cbn [c_key c_nonce c_seen].
  by case_bool_decide.
Qed.

End Container.

Lemma write_file_written path content w evs :
  write_file path content (add_log w evs) = (Ok tt, written w path content evs).
Proof. unfold write_file, written, add_log. cbn. by rewrite <- app_assoc. Qed.

(** C1. A non-empty file of bytes [B] at path [name], encoded under the
    key derived from a password [P], decodes under the same key: decoding
    succeeds and writes exactly [B], to the path [name] recorded in the
    container when no output path is given (or to the output path given). *)
Theorem container_roundtrip (L : Libs) (OK : LibsOK L)
    (B : list byte) (name P : string) (w : world) :
  files w !! name = Some B →
  B ≠ [] →
  ∃ key bits evs,
    (∀ w0, ∃ evs0, get_password (Some P) w0 = (Ok key, add_log w0 evs0))
    ∧ get_bits_from_file name key w = (Ok bits, add_log w evs)
    ∧ ∀ file_path w2, ∃ evs2,
        save_bits_to_file file_path bits key w2
        = (Ok tt, written w2 (default name file_path) B evs2).
Proof.
  intros Hfile Hne. exists (derive P). eexists. eexists. split; [|split].
  - intros w0. eexists. apply get_password_Some.
  - apply get_bits_from_file_spec; [done|done|apply derive_valid].
  - intros file_path w2. eexists.
    erewrite save_bits_to_file_parsed;
      [ | apply bin_bytes_bytes_bin | apply gzip_roundtrip | apply json_roundtrip
        | reflexivity | apply b64_roundtrip | reflexivity | apply b64_roundtrip
        | reflexivity | apply derive_valid ].
    rewrite bool_decide_eq_true_2 by done. rewrite EAX_ctr_involutive.
    destruct file_path as [p|]; cbn [write_to default]; apply write_file_written.
Qed.

Lemma container_roundtrip_witness :
  files Toy.world0 !! "docs/hello.txt" = Some Toy.HelloWorld
  ∧ Toy.HelloWorld ≠ []
  ∧ ∃ key bits evs,
      (∀ w0, ∃ evs0, @get_password Toy.libs (Some "secret") w0 = (Ok key, add_log w0 evs0))
      ∧ @get_bits_from_file Toy.libs "docs/hello.txt" key Toy.world0
        = (Ok bits, add_log Toy.world0 evs)
      ∧ ∀ file_path w2, ∃ evs2,
          @save_bits_to_file Toy.libs file_path bits key w2
          = (Ok tt, written w2 (default "docs/hello.txt" file_path) Toy.HelloWorld evs2).
Proof.
  split; [reflexivity|]. split; [discriminate|].
  apply (container_roundtrip Toy.libs toy_libs_ok Toy.HelloWorld "docs/hello.txt"
           "secret" Toy.world0); [reflexivity|discriminate].
Defined.

(** C1, as stated, fails on the empty file: it is there, yet reading it
    raises, so that no container is made of it, whatever the libraries. *)
Lemma empty_file_not_encoded :
  ¬ (∀ (L : Libs), LibsOK L →
       ∀ (B : list byte) (name P : string) (w : world),
         files w !! name = Some B →
         ∃ key bits w',
           (∀ w0, ∃ evs0, get_password (Some P) w0 = (Ok key, add_log w0 evs0))
           ∧ get_bits_from_file name key w = (Ok bits, w')).
Proof.
  intros Hclaim.
  destruct (Hclaim Toy.libs toy_libs_ok [] "empty.bin" "secret"
              (mkWorld {[ "empty.bin" := [] ]} [] [] FRAMERATE0 []))
    as (key & bits & w' & _ & Hrun); [reflexivity|].
  rewrite get_bits_from_file_empty in Hrun by reflexivity. discriminate Hrun.
Qed.

(** A password and the same password followed by a zero byte are the same
    key to HMAC, which fills a key shorter than its block -- 128 bytes for
    SHA-512 -- with zero bytes; so they derive the same key. *)
Lemma trailing_zero_same_key (L : Libs) (P : string) :
  hmac_pads_key L →
  length (str_encode P) < 128 →
  P ≠ "default" → P +:+ NUL ≠ "default" →
  derive (P +:+ NUL) = derive P.
Proof.
  intros Hpad Hlen HP HP'. unfold derive.
  rewrite !bool_decide_eq_false_2 by done.
  replace (str_encode (P +:+ NUL)) with (str_encode P ++ [x00]); [by apply Hpad|].
  unfold str_encode. clear. induction P as [|c P IH]; [reflexivity|].
  cbn [String.app list_ascii_of_string flat_map]. by rewrite <- app_assoc, IH.
Qed.

Lemma toy_take_zero (pw : list byte) :
  ∀ n m, n ≤ m → take n (pw ++ x00 :: repeat x00 m) = take n (pw ++ repeat x00 m).
Proof.
  induction pw as [|b pw IH]; intros n m Hnm.
  - cbn [app]. revert m Hnm. induction n as [|n IHn]; intros m Hnm; [done|].
    destruct m as [|m]; [lia|]. cbn [repeat take]. f_equal. apply IHn. lia.
  - destruct n as [|n]; [done|]. cbn [app take]. f_equal. apply IH. lia.
Qed.

Lemma toy_hmac_pads_key : hmac_pads_key Toy.libs.
Proof.
  intros n salt iters pw _. cbv [PBKDF2HMAC Toy.libs]. unfold Toy.kdf.
  rewrite <- app_assoc. cbn [app]. by apply toy_take_zero.
Qed.

(** What decoding under another key does, whatever the passwords. *)
Lemma decode_under_other_key (L : Libs) (OK : LibsOK L)
    (B : list byte) (name : string) (key1 key2 : list byte) file_path w2 :
  valid_key_length key2 →
  let ciphertext := EAX_ctr key1 SALT B in
  let tag := EAX_mac key1 SALT ciphertext in
  let bits := bytes_bin (gzip_compress (json_dumps (container_record tag ciphertext name))) in
  let w2' := add_log w2 [EPrint "Unziping..."; EAesNew key2;
                         EPrint "Checking integrity..."] in
  save_bits_to_file file_path bits key2 w2
  = if bool_decide (EAX_mac key2 SALT ciphertext = tag)
    then write_file (default name file_path) (EAX_ctr key2 SALT ciphertext) w2'
    else (Raise (WrongPassword "Key incorrect or message corrupted"), w2').
Proof.
  intros Hkey ciphertext tag bits w2'. subst bits.
  erewrite save_bits_to_file_parsed;
    [ | apply bin_bytes_bytes_bin | apply gzip_roundtrip | apply json_roundtrip
      | reflexivity | apply b64_roundtrip | reflexivity | apply b64_roundtrip
      | reflexivity | done ].
  fold w2'. case_bool_decide; [|done]. by destruct file_path.
Qed.

(** C3. A non-empty file encoded under the key of password [P1] and decoded
    under the key of password [P2]: when the tag that the key of [P2] gives
    over the ciphertext differs from the stored tag, decoding fails with
    [WrongPassword] -- the authentication failure -- raised once the tag
    has been checked; nothing is opened for writing and the files are as
    they were. When the two tags agree, no failure is reported and a file
    is written; this is so whenever the two passwords derive one key, and
    the file is then restored. *)
Theorem wrong_key_detected (L : Libs) (OK : LibsOK L)
    (B : list byte) (name P1 P2 : string) (w : world) :
  files w !! name = Some B →
  B ≠ [] →
  let ciphertext := EAX_ctr (derive P1) SALT B in
  ∃ bits evs,
    get_bits_from_file name (derive P1) w = (Ok bits, add_log w evs)
    ∧ ∀ file_path w2,
        (EAX_mac (derive P2) SALT ciphertext ≠ EAX_mac (derive P1) SALT ciphertext →
         ∃ e w2',
           save_bits_to_file file_path bits (derive P2) w2 = (Raise e, w2')
           ∧ e = WrongPassword "Key incorrect or message corrupted"
           ∧ kind_of e = AuthenticationFailure
           ∧ log w2' = log w2 ++ [EPrint "Unziping..."; EAesNew (derive P2);
                                  EPrint "Checking integrity..."]
           ∧ files w2' = files w2)
        ∧ (EAX_mac (derive P2) SALT ciphertext = EAX_mac (derive P1) SALT ciphertext →
           ∃ evs2,
             save_bits_to_file file_path bits (derive P2) w2
             = (Ok tt, written w2 (default name file_path)
                               (EAX_ctr (derive P2) SALT ciphertext) evs2))
        ∧ (derive P2 = derive P1 →
           ∃ evs2,
             save_bits_to_file file_path bits (derive P2) w2
             = (Ok tt, written w2 (default name file_path) B evs2)).
Proof.
  intros Hfile Hne ciphertext. eexists. eexists. split.
  - apply get_bits_from_file_spec; [done|done|apply derive_valid].
  - intros file_path w2.
    rewrite (decode_under_other_key L OK B name (derive P1) (derive P2))
      by apply derive_valid.
    fold ciphertext. split; [|split].
    + intros Htag. rewrite bool_decide_eq_false_2 by done.
      eexists _, _. split; [reflexivity|]. done.
    + intros Htag. rewrite bool_decide_eq_true_2 by done.
      eexists. apply write_file_written.
    + intros Hkey. rewrite Hkey. rewrite bool_decide_eq_true_2 by done.
      subst ciphertext. rewrite EAX_ctr_involutive.
      eexists. apply write_file_written.
Qed.

Lemma wrong_key_detected_witness :
  files Toy.world0 !! "docs/hello.txt" = Some Toy.HelloWorld
  ∧ Toy.HelloWorld ≠ []
  ∧ let ciphertext := @EAX_ctr Toy.libs (@derive Toy.libs "alpha") SALT Toy.HelloWorld in
    ∃ bits evs,
      @get_bits_from_file Toy.libs "docs/hello.txt" (@derive Toy.libs "alpha") Toy.world0
      = (Ok bits, add_log Toy.world0 evs)
      ∧ ∀ file_path w2,
          (@EAX_mac Toy.libs (@derive Toy.libs "beta") SALT ciphertext
           ≠ @EAX_mac Toy.libs (@derive Toy.libs "alpha") SALT ciphertext →
           ∃ e w2',
             @save_bits_to_file Toy.libs file_path bits (@derive Toy.libs "beta") w2
             = (Raise e, w2')
             ∧ e = WrongPassword "Key incorrect or message corrupted"
             ∧ kind_of e = AuthenticationFailure
             ∧ log w2' = log w2 ++ [EPrint "Unziping..."; EAesNew (@derive Toy.libs "beta");
                                    EPrint "Checking integrity..."]
             ∧ files w2' = files w2)
          ∧ (@EAX_mac Toy.libs (@derive Toy.libs "beta") SALT ciphertext
             = @EAX_mac Toy.libs (@derive Toy.libs "alpha") SALT ciphertext →
             ∃ evs2,
               @save_bits_to_file Toy.libs file_path bits (@derive Toy.libs "beta") w2
               = (Ok tt, written w2 (default "docs/hello.txt" file_path)
                                 (@EAX_ctr Toy.libs (@derive Toy.libs "beta") SALT ciphertext)
                                 evs2))
          ∧ (@derive Toy.libs "beta" = @derive Toy.libs "alpha" →
             ∃ evs2,
               @save_bits_to_file Toy.libs file_path bits (@derive Toy.libs "beta") w2
               = (Ok tt, written w2 (default "docs/hello.txt" file_path)
                                 Toy.HelloWorld evs2)).
Proof.
  split; [reflexivity|]. split; [discriminate|].
  apply (wrong_key_detected Toy.libs toy_libs_ok Toy.HelloWorld "docs/hello.txt"
           "alpha" "beta" Toy.world0); [reflexivity|discriminate].
Defined.

(** C3, as stated, fails: two different passwords may derive one key, as a
    password and the same password followed by a zero byte do, and then
    decoding under the second restores the file without any failure. *)
Lemma different_passwords_same_key :
  ¬ (∀ (L : Libs), LibsOK L → hmac_pads_key L →
       ∀ (B : list byte) (name P1 P2 : string) (w : world),
         files w !! name = Some B → B ≠ [] → P1 ≠ P2 →
         ∃ bits w1,
           get_bits_from_file name (derive P1) w = (Ok bits, w1)
           ∧ ∀ file_path w2, ∃ e w2',
               save_bits_to_file file_path bits (derive P2) w2 = (Raise e, w2')
               ∧ kind_of e = AuthenticationFailure).
Proof.
  intros Hclaim.
  destruct (Hclaim Toy.libs toy_libs_ok toy_hmac_pads_key Toy.HelloWorld
              "docs/hello.txt" "abc" ("abc" +:+ NUL) Toy.world0)
    as (bits & w1 & Hrun & Hfail); [reflexivity|discriminate|discriminate|].
  rewrite (get_bits_from_file_spec "docs/hello.txt" _ Toy.HelloWorld) in Hrun;
    [|reflexivity|discriminate|apply (@derive_valid Toy.libs toy_libs_ok)].
  apply (f_equal fst) in Hrun. cbn [fst] in Hrun.
  assert (∀ a b : list bool, Ok a = Ok b → a = b) as Hinj by (by intros a b [= ->]).
  apply Hinj in Hrun. subst bits.
  destruct (Hfail None Toy.world0) as (e & w2' & Hsave & _).
  rewrite (decode_under_other_key Toy.libs toy_libs_ok) in Hsave
    by apply (@derive_valid Toy.libs toy_libs_ok).
  rewrite (trailing_zero_same_key Toy.libs "abc" toy_hmac_pads_key) in Hsave;
    [|vm_compute; lia|discriminate|discriminate].
  rewrite bool_decide_eq_true_2 in Hsave by done. discriminate Hsave.
Qed.

(** The same on the concrete run: the file encoded under ["abc"] is
    restored under ["abc"] followed by a zero byte. *)
Example trailing_zero_password_run :
  "abc" ≠ "abc" +:+ NUL
  ∧ let bits := match @get_bits_from_file Toy.libs "docs/hello.txt"
                        (@derive Toy.libs "abc") Toy.world0 with
                | (Ok bits, _) => bits
                | _ => []
                end in
    let run := @save_bits_to_file Toy.libs (Some "out.txt") bits
                 (@derive Toy.libs ("abc" +:+ NUL)) Toy.world0 in
    run.1 = Ok tt ∧ files run.2 !! "out.txt" = Some Toy.HelloWorld.
Proof. split; [discriminate|]. vm_compute. done. Qed.

(** Decoding with the wrong password leaves the world's files untouched,
    here on the concrete run. *)
Example wrong_password_run :
  let bits := match @get_bits_from_file Toy.libs "docs/hello.txt"
                      (@derive Toy.libs "alpha") Toy.world0 with
              | (Ok bits, _) => bits
              | _ => []
              end in
  (@save_bits_to_file Toy.libs None bits (@derive Toy.libs "beta") Toy.world0).1
  = Raise (WrongPassword "Key incorrect or message corrupted").
Proof. vm_compute. reflexivity. Qed.

(** C9. The filename written into the container of a non-empty file is the
    input path exactly as it was passed to [get_bits_from_file], not its
    base name; and when no output path is given, a container that
    authenticates is written to the path recorded in it, whatever that
    path is. *)
Theorem filename_is_full_path (L : Libs) (OK : LibsOK L)
    (filepath : string) (key B : list byte) (w : world) :
  files w !! filepath = Some B →
  B ≠ [] →
  valid_key_length key →
  (∃ tag data evs,
     get_bits_from_file filepath key w
     = (Ok (bytes_bin (gzip_compress (json_dumps
              (JObj [("tag", JStr tag); ("data", JStr data);
                     ("filename", JStr filepath)])))),
        add_log w evs))
  ∧ (∀ bits blob raw fields t d tag ciphertext recorded w2,
       bin_bytes bits = Ok blob →
       gzip_decompress blob = Some raw →
       json_loads raw = Some (JObj fields) →
       assoc "tag" fields = Some (JStr t) → base64_b64decode t = Ok tag →
       assoc "data" fields = Some (JStr d) → base64_b64decode d = Ok ciphertext →
       assoc "filename" fields = Some (JStr recorded) →
       EAX_mac key SALT ciphertext = tag →
       ∃ evs2, save_bits_to_file None bits key w2
               = (Ok tt, written w2 recorded (EAX_ctr key SALT ciphertext) evs2)).
Proof.
  intros Hfile Hne Hkey. split.
  - do 3 eexists. by apply get_bits_from_file_spec.
  - intros bits blob raw fields t d tag ciphertext recorded w2
      Hbits Hgz Hjson Htag Ht Hdata Hd Hname Hmac.
    eexists. erewrite save_bits_to_file_parsed by done.
    rewrite bool_decide_eq_true_2 by done. cbn [write_to].
    apply write_file_written.
Qed.

Lemma filename_is_full_path_witness :
  files Toy.world0 !! "docs/hello.txt" = Some Toy.HelloWorld
  ∧ Toy.HelloWorld ≠ []
  ∧ valid_key_length DEFAULT_KEY
  ∧ (∃ tag data evs,
       @get_bits_from_file Toy.libs "docs/hello.txt" DEFAULT_KEY Toy.world0
       = (Ok (bytes_bin (@gzip_compress Toy.libs (@json_dumps Toy.libs
                (JObj [("tag", JStr tag); ("data", JStr data);
                       ("filename", JStr "docs/hello.txt")])))),
          add_log Toy.world0 evs))
  ∧ (∀ bits blob raw fields t d tag ciphertext recorded w2,
       bin_bytes bits = Ok blob →
       @gzip_decompress Toy.libs blob = Some raw →
       @json_loads Toy.libs raw = Some (JObj fields) →
       assoc "tag" fields = Some (JStr t) → @base64_b64decode Toy.libs t = Ok tag →
       assoc "data" fields = Some (JStr d) → @base64_b64decode Toy.libs d = Ok ciphertext →
       assoc "filename" fields = Some (JStr recorded) →
       @EAX_mac Toy.libs DEFAULT_KEY SALT ciphertext = tag →
       ∃ evs2, @save_bits_to_file Toy.libs None bits DEFAULT_KEY w2
               = (Ok tt, written w2 recorded
                                 (@EAX_ctr Toy.libs DEFAULT_KEY SALT ciphertext) evs2)).
Proof.
  split; [reflexivity|]. split; [discriminate|]. split; [vm_compute; set_solver|].
  apply (filename_is_full_path Toy.libs toy_libs_ok "docs/hello.txt" DEFAULT_KEY
           Toy.HelloWorld Toy.world0);
    [reflexivity | discriminate | vm_compute; set_solver].
Defined.

(** The base name of the path is computed by the encoder but is not what
    the container records: decoding writes to the full path. *)
Example basename_is_not_recorded :
  basename "docs/hello.txt" = "hello.txt"
  ∧ let bits := match @get_bits_from_file Toy.libs "docs/hello.txt" DEFAULT_KEY
                        Toy.world0 with
                | (Ok bits, _) => bits
                | _ => []
                end in
    let w' := (@save_bits_to_file Toy.libs None bits DEFAULT_KEY
                 (mkWorld ∅ [] [] FRAMERATE0 [])).2 in
    files w' !! "docs/hello.txt" = Some Toy.HelloWorld
    ∧ files w' !! "hello.txt" = None.
Proof. vm_compute. done. Qed.

(** A bit string that is not a whole number of bytes is refused before
    anything is decompressed. *)
Lemma partial_byte_rejected (L : Libs) file_path bits key w e :
  bin_bytes bits = Raise e →
  save_bits_to_file file_path bits key w = (Raise e, add_log w [EPrint "Unziping..."])
  ∧ kind_of e = MalformedContainer.
Proof.
  intros Hbits. split.
  - unfold save_bits_to_file, print. by rewrite bind_emit, bind_lift, Hbits.
  - revert e Hbits. induction bits as [bits IH] using (induction_ltof1 _ length).
    unfold ltof in IH. intros e.
    destruct bits as [|b7 [|b6 [|b5 [|b4 [|b3 [|b2 [|b1 [|b0 rest]]]]]]]];
      cbn [bin_bytes]; try (by intros [= <-]).
    destruct (bin_bytes rest) as [bs|e'] eqn:Hrest; [done|].
    intros [= <-]. apply (IH rest); [cbn; lia|done].
Qed.

Ltac reject :=
  eexists _, [EPrint "Unziping..."];
  split; [reflexivity
         |split; [(by left) || (by right)|split; [discriminate|repeat constructor]]].

(** C7, as the code has it. When the blob cannot be decompressed, or its
    content is not JSON, or the record is not an object, lacks the tag, the
    data or the filename, or has a tag or data that is not a string or is
    a string that [base64.b64decode] refuses, decoding fails before any
    cipher is built and before anything is written, with an error that is
    never the authentication failure: one of the malformed-container kind
    or, for a tag or data string with a character outside ASCII, a plain
    [ValueError]. *)
Theorem malformed_container_rejected (L : Libs)
    (file_path : option string) (bits : list bool) (blob key : list byte) (w : world) :
  bin_bytes bits = Ok blob →
  malformed blob →
  ∃ e evs,
    save_bits_to_file file_path bits key w = (Raise e, add_log w evs)
    ∧ (kind_of e = MalformedContainer ∨ e = ValueError)
    ∧ kind_of e ≠ AuthenticationFailure
    ∧ Forall (λ ev, is_cipher ev = false ∧ is_write ev = false) evs.
Proof.
  intros Hbits Hbad. unfold malformed in Hbad.
  unfold save_bits_to_file, print.
  rewrite bind_emit, bind_lift, Hbits, bind_of_option.
  destruct (gzip_decompress blob) as [raw|]; [|reject].
  rewrite bind_of_option.
  destruct (json_loads raw) as [data|]; [|reject].
  destruct data as [| | | |items|fields]; try reject.
  cbn [getitem record_rejected] in *. rewrite bind_of_option.
  destruct (assoc "tag" fields) as [t|]; [|reject].
  destruct t as [| | |t| |]; cbn [b64decode_value]; try reject.
  rewrite bind_lift.
  destruct (base64_b64decode t) as [tag|e] eqn:Ht;
    [|destruct (base64_b64decode_raises t e Ht) as [-> | ->]; reject].
  rewrite bind_of_option.
  destruct (assoc "data" fields) as [d|]; [|reject].
  destruct d as [| | |d| |]; cbn [b64decode_value]; try reject.
  rewrite bind_lift.
  destruct (base64_b64decode d) as [ciphertext|e] eqn:Hd;
    [|destruct (base64_b64decode_raises d e Hd) as [-> | ->]; reject].
  rewrite bind_of_option.
  destruct (assoc "filename" fields) as [filename|]; [|reject].
  cbn [not_base64] in Hbad. destruct Hbad as [Hbad|Hbad]; by edestruct Hbad.
Qed.

Lemma malformed_container_rejected_witness :
  bin_bytes (bytes_bin [x00; x01]) = Ok [x00; x01]
  ∧ @malformed Toy.libs [x00; x01]
  ∧ ∃ e evs,
      @save_bits_to_file Toy.libs None (bytes_bin [x00; x01]) DEFAULT_KEY Toy.world0
      = (Raise e, add_log Toy.world0 evs)
      ∧ (kind_of e = MalformedContainer ∨ e = ValueError)
      ∧ kind_of e ≠ AuthenticationFailure
      ∧ Forall (λ ev, is_cipher ev = false ∧ is_write ev = false) evs.
Proof.
  split; [reflexivity|]. split; [exact I|].
  apply (malformed_container_rejected Toy.libs None (bytes_bin [x00; x01])
           [x00; x01] DEFAULT_KEY Toy.world0);
    [reflexivity | exact I].
Defined.

(** A tag with a character outside ASCII is refused with a plain
    [ValueError], a tag of an odd number of letters by the decoder
    proper, and the world is left alone both times. *)
Example non_ascii_tag_run :
  let record t := JObj [("tag", JStr t); ("data", JStr ""); ("filename", JStr "out")] in
  let run t := @save_bits_to_file Toy.libs None
                 (bytes_bin (Toy.compress (Toy.dumps (record t)))) DEFAULT_KEY
                 Toy.world0 in
  (run (String (ascii_of_nat 233) EmptyString)).1 = Raise ValueError
  ∧ (run "a").1 = Raise BinasciiError
  ∧ files (run "a").2 = files Toy.world0.
Proof. vm_compute. done. Qed.

(** C7, as stated, fails: a record whose filename is a number has a
    mis-typed field, yet it is taken apart without complaint, the cipher is
    built, and what fails is the tag check, with the authentication
    failure. *)
Lemma mistyped_filename_reaches_cipher :
  ¬ (∀ (L : Libs), LibsOK L →
       ∀ file_path bits blob key w,
         bin_bytes bits = Ok blob →
         malformed_by_design blob →
         ∃ e evs,
           save_bits_to_file file_path bits key w = (Raise e, add_log w evs)
           ∧ kind_of e = MalformedContainer
           ∧ Forall (λ ev, is_cipher ev = false) evs).
Proof.
  intros Hclaim.
  pose (record := JObj [("tag", JStr ""); ("data", JStr ""); ("filename", JNum 5)]).
  pose (blob := Toy.compress (Toy.dumps record)).
  destruct (Hclaim Toy.libs toy_libs_ok None (bytes_bin blob) blob DEFAULT_KEY
              Toy.world0) as (e & evs & Hrun & Hkind & _).
  - apply bin_bytes_bytes_bin.
  - vm_compute. exact I.
  - vm_compute in Hrun. injection Hrun as <- _. discriminate Hkind.
Qed.

Example mistyped_filename_run :
  let record := JObj [("tag", JStr ""); ("data", JStr ""); ("filename", JNum 5)] in
  let bits := bytes_bin (Toy.compress (Toy.dumps record)) in
  Toy.loads (Toy.dumps record) = Some record
  ∧ @save_bits_to_file Toy.libs None bits DEFAULT_KEY Toy.world0
    = (Raise (WrongPassword "Key incorrect or message corrupted"),
       add_log Toy.world0 [EPrint "Unziping..."; EAesNew DEFAULT_KEY;
                           EPrint "Checking integrity..."]).
Proof. vm_compute. done. Qed.

(** The same for any libraries: a record whose filename is not a string
    goes through to the cipher, and a tag that does not match is reported
    as a wrong password. *)
Lemma mistyped_filename_any_libs (L : Libs)
    bits blob raw t d tag ciphertext (z : Z) key w :
  bin_bytes bits = Ok blob →
  gzip_decompress blob = Some raw →
  json_loads raw
  = Some (JObj [("tag", JStr t); ("data", JStr d); ("filename", JNum z)]) →
  base64_b64decode t = Ok tag → base64_b64decode d = Ok ciphertext →
  valid_key_length key →
  EAX_mac key SALT ciphertext ≠ tag →
  save_bits_to_file None bits key w
  = (Raise (WrongPassword "Key incorrect or message corrupted"),
     add_log w [EPrint "Unziping..."; EAesNew key; EPrint "Checking integrity..."]).
Proof.
  intros Hbits Hgz Hjson Ht Hd Hkey Hmac.
  erewrite save_bits_to_file_parsed by done.
  by rewrite bool_decide_eq_false_2.
Qed.

(** ** The command line *)

Lemma get_password_None (L : Libs) w :
  ∃ r evs, get_password None w = (r, mkWorld (files w) (tail (tty w)) (glob_frames w)
                                           (FRAMERATE w)
                                           (log w ++ EGetpass "Enter password:" :: evs)).
Proof.
  unfold get_password. rewrite bool_decide_eq_false_2 by done.
  unfold mbind at 1, M_bind, bind, getpass. destruct (tty w) as [|line rest].
  - exists (Raise EOFError), []. reflexivity.
  - rewrite bind_emit. eexists (Ok _), [_].
    unfold ret, add_log. cbn [files tty glob_frames FRAMERATE log tail].
    by rewrite <- app_assoc.
Qed.

(** C10. When [--password] is left out of the command line, the key is the
    fixed default key -- 32 space bytes -- obtained without a prompt and
    without a key derivation: the world is untouched. A prompt is shown
    exactly when [--password] is given without a value. *)
Theorem default_key_without_prompt (L : Libs)
    (default_framerate : string) (cmdline : argv) (w : world) :
  let args := parse_args default_framerate cmdline in
  let run := get_password (args_password args) w in
  DEFAULT_KEY = replicate 32 x20
  ∧ (opt_password cmdline = None → run = (Ok DEFAULT_KEY, w))
  ∧ ∃ evs, log run.2 = log w ++ evs
      ∧ (Exists (λ e, is_prompt e = true) evs ↔ opt_password cmdline = Some None).
Proof.
  intros args run. split; [reflexivity|]. subst run args.
  destruct cmdline as [enc dec inp out fr [[P|]|]]; cbn [parse_args args_password opt_password].
  - split; [done|]. rewrite get_password_Some. cbn [snd add_log log]. eexists.
    split; [done|]. split; [|done].
    case_bool_decide; intros Hex; repeat (inversion Hex as [? ? Hp|? ? Hex']; subst;
      [discriminate Hp|clear Hex; rename Hex' into Hex]); inversion Hex.
  - split; [done|]. destruct (get_password_None L w) as (r & evs & ->).
    cbn [snd log]. eexists. split; [done|]. split; [done|]. intros _.
    by apply Exists_cons_hd.
  - split.
    + intros _. unfold get_password. by rewrite bool_decide_eq_true_2.
    + unfold get_password. rewrite bool_decide_eq_true_2 by done. cbn [ret snd].
      exists []. rewrite app_nil_r. split; [done|]. split; [|done].
      intros Hex. inversion Hex.
Qed.

Lemma bind_set_FRAMERATE_if {B} (f : string) (k : unit → M B) w :
  ((if bool_decide (f ≠ FRAMERATE w) then set_FRAMERATE f else mret tt) ≫= k) w
  = k tt (with_FRAMERATE w f).
Proof.
  case_bool_decide as Hf; [reflexivity|].
  unfold mbind, M_bind, bind, mret, M_ret, ret.
  f_equal. destruct w. unfold with_FRAMERATE. cbn in *. by subst.
Qed.

(** The start of every run: the frames directory is made and the global
    set, whatever comes next. *)
Lemma main_start (L : Libs) (cmdline : argv) (w : world) :
  let args := parse_args (FRAMERATE w) cmdline in
  main cmdline w
  = ((if negb (args_decode args) && negb (args_encode args)
      then raise (MissingArgument "You should use either --encode or --decode!")
      else mret tt);;
     key ← get_password (args_password args);
     (if args_decode args then
        bits ← get_bits_from_video (args_input args);
        let file_path := if truthy (args_output args) then args_output args else None in
        save_bits_to_file file_path bits key
      else if args_encode args then
        (if framerate_refused (args_framerate args)
         then raise (NotImplementedError
                       ("The framerate must be a positive fraction or an integer for "
                        +:+ "now, like 3, '1/3', or '1/5'!"))
         else mret tt);;
        bits ← get_bits_from_file (args_input args) key;
        make_image_sequence bits default_resolution;;
        let video_file_path := if truthy (args_output args) then args_output args else None in
        make_video video_file_path (args_framerate args)
      else mret tt);;
     cleanup)
      (add_log (with_FRAMERATE w (args_framerate args)) [EMakedirs FRAMES_DIR]).
Proof.
  intros args. unfold main. rewrite bind_get_FRAMERATE. fold args.
  unfold setup. rewrite bind_emit, bind_get_FRAMERATE.
  change (FRAMERATE (add_log w [EMakedirs FRAMES_DIR])) with (FRAMERATE w).
  by rewrite (bind_set_FRAMERATE_if (args_framerate args) _
                (add_log w [EMakedirs FRAMES_DIR])).
Qed.

(** An encode run whose framerate passes the test, from the moment the key
    is there: the file is read, the frames are saved, the external
    transcoder is started with the framerate as it was typed, and the
    frames directory is deleted. *)
Lemma main_encode_after_key (L : Libs) (OK : LibsOK L) (cmdline : argv) (w wk : world)
    B key :
  opt_encode cmdline = true → opt_decode cmdline = false →
  let args := parse_args (FRAMERATE w) cmdline in
  get_password (args_password args)
    (add_log (with_FRAMERATE w (args_framerate args)) [EMakedirs FRAMES_DIR])
  = (Ok key, wk) →
  valid_key_length key →
  framerate_refused (args_framerate args) = false →
  files wk !! opt_input cmdline = Some B → B ≠ [] →
  ∃ frames_evs,
    Forall (λ e, is_prompt e = false ∧ is_kdf e = false ∧ is_cipher e = false
                 ∧ is_system e = false) frames_evs
    ∧ main cmdline w
    = (Ok tt,
       cleaned wk
         ([EPrint "Reading file..."; EAesNew key; EPrint "Zipping..."]
          ++ frames_evs
          ++ [ESystem ("ffmpeg -r " +:+ args_framerate args
                       +:+ " -i ./fvid_frames/encoded_frames_%d.png -c:v libx264rgb "
                       +:+ match (if truthy (args_output args)
                                  then args_output args else None) with
                           | None => "file.mp4"
                           | Some p => p
                           end)])).
Proof.
  intros Henc Hdec args Hkey Hvalid Hfr Hfile Hne.
  rewrite main_start. fold args.
  assert (args_encode args = true) as Henc' by done.
  assert (args_decode args = false) as Hdec' by done.
  rewrite Henc', Hdec'. cbn [negb andb]. rewrite bind_ret.
  erewrite bind_Ok by exact Hkey.
  rewrite Hfr. unfold mbind at 1, M_bind, bind.
  unfold mbind at 1, M_bind, bind. unfold mret at 1, M_ret, ret at 1.
  unfold mbind at 1, M_bind, bind.
  rewrite (get_bits_from_file_spec (args_input args) key B) by done.
  destruct (make_image_sequence_run 1920 1080
              (bytes_bin (gzip_compress (json_dumps (container_record
                 (EAX_mac key SALT (EAX_ctr key SALT B))
                 (EAX_ctr key SALT B) (args_input args)))))
              (add_log wk
                 [EPrint "Reading file..."; EAesNew key; EPrint "Zipping..."]))
    as (padded & _ & _ & Hrun).
  { apply bytes_bin_nonempty, gzip_nonempty. }
  { lia. }
  unfold default_resolution. erewrite bind_Ok by exact Hrun.
  unfold make_video, os_system, cleanup, emit. cbv beta iota.
  exists ([EPrint "Making image sequence"; EPrint "Cutting..."; EPrint "Saving frames..."]
          ++ imap (λ i chunk, ESave (encoded_frame_path (1 + i))
                                    (mkBitmap (1920, 1080) (map int_of_bit chunk)))
                  padded).
  split; cycle 1.
  { rewrite !add_log_app. unfold add_log, cleaned.
    cbn [files tty glob_frames FRAMERATE log]. rewrite <- !app_assoc. reflexivity. }
  apply Forall_app. split; [by repeat constructor|].
  apply Forall_lookup. intros i e. rewrite list_lookup_imap.
  destruct (padded !! i); [|done]. by intros [= <-].
Qed.

(** The same for a password given on the command line, or left out. *)
Lemma main_encode_run (L : Libs) (OK : LibsOK L) (cmdline : argv) (w : world) B P :
  opt_encode cmdline = true → opt_decode cmdline = false →
  let args := parse_args (FRAMERATE w) cmdline in
  args_password args = Some P →
  framerate_refused (args_framerate args) = false →
  files w !! opt_input cmdline = Some B → B ≠ [] →
  ∃ frames_evs,
    Forall (λ e, is_prompt e = false ∧ is_kdf e = false ∧ is_cipher e = false
                 ∧ is_system e = false) frames_evs
    ∧ main cmdline w
    = (Ok tt,
       cleaned (with_FRAMERATE w (args_framerate args))
         ([EMakedirs FRAMES_DIR]
          ++ (if bool_decide (P = "default") then [] else [EKdf (str_encode P)])
          ++ [EPrint "Reading file..."; EAesNew (derive P); EPrint "Zipping..."]
          ++ frames_evs
          ++ [ESystem ("ffmpeg -r " +:+ args_framerate args
                       +:+ " -i ./fvid_frames/encoded_frames_%d.png -c:v libx264rgb "
                       +:+ match (if truthy (args_output args)
                                  then args_output args else None) with
                           | None => "file.mp4"
                           | Some p => p
                           end)])).
Proof.
  intros Henc Hdec args Hpw Hfr Hfile Hne.
  destruct (main_encode_after_key L OK cmdline w
              (add_log (add_log (with_FRAMERATE w (args_framerate args))
                                [EMakedirs FRAMES_DIR])
                       (if bool_decide (P = "default") then [] else [EKdf (str_encode P)]))
              B (derive P) Henc Hdec) as (frames_evs & Hevs & Hrun).
  - fold args. rewrite Hpw. apply get_password_Some.
  - apply derive_valid.
  - done.
  - done.
  - done.
  - exists frames_evs. split; [done|]. rewrite Hrun. f_equal.
    unfold cleaned, add_log. cbn [files tty glob_frames FRAMERATE log].
    by rewrite <- !app_assoc.
Qed.

(** An encode run whose framerate fails the test stops there: no file has
    been read, no frame saved and no external command started. *)
Lemma main_encode_refused (L : Libs) (cmdline : argv) (w : world) P :
  opt_encode cmdline = true → opt_decode cmdline = false →
  let args := parse_args (FRAMERATE w) cmdline in
  args_password args = Some P →
  framerate_refused (args_framerate args) = true →
  ∃ msg evs,
    main cmdline w
    = (Raise (NotImplementedError msg),
       add_log (with_FRAMERATE w (args_framerate args)) evs)
    ∧ kind_of (NotImplementedError msg) = InvalidFramerate
    ∧ Forall (λ e, is_save e = false ∧ is_system e = false ∧ is_cipher e = false) evs.
Proof.
  intros Henc Hdec args Hpw Hfr.
  rewrite main_start. fold args.
  assert (args_encode args = true) as Henc' by done.
  assert (args_decode args = false) as Hdec' by done.
  rewrite Henc', Hdec'. cbn [negb andb]. rewrite bind_ret.
  rewrite Hpw. erewrite bind_Ok by apply get_password_Some.
  rewrite Hfr. unfold mbind, M_bind, bind, raise.
  eexists _, ([EMakedirs FRAMES_DIR]
              ++ (if bool_decide (P = "default") then [] else [EKdf (str_encode P)])).
  split; [|split; [done|]].
  - rewrite add_log_app. reflexivity.
  - case_bool_decide; by repeat constructor.
Qed.

(** The five framerates of the design document. *)
Lemma framerate_examples :
  framerate_refused "3" = false
  ∧ framerate_refused "1/3" = false
  ∧ framerate_refused "-1/3" = true
  ∧ framerate_refused "abc" = true
  ∧ framerate_refused "1/-3" = true.
Proof. repeat split; reflexivity. Qed.

(** A framerate without a slash is refused unless it is made of digits, so
    every such negative or non-numeric value is refused. *)
Lemma framerate_without_slash fr :
  str_contains "/" fr = false → framerate_refused fr = negb (isdigit fr).
Proof.
  intros Hslash. unfold framerate_refused. cbn [forallb].
  rewrite Hslash. cbn [negb]. by rewrite !andb_true_r, andb_false_r, orb_false_r.
Qed.

(** C8 fails on the code for framerates with a slash: [a/b] is not a
    number, yet it passes the test of the encode branch, the frames of a
    non-empty input file are made, and the external transcoder is started
    with [-r a/b]. *)
Theorem nonnumeric_framerate_accepted (L : Libs) (OK : LibsOK L)
    (input : string) (B : list byte) (w : world) :
  files w !! input = Some B →
  B ≠ [] →
  framerate_refused "a/b" = false
  ∧ ∃ w', main (mkArgv true false input None (Some "a/b") None) w = (Ok tt, w')
      ∧ ESystem "ffmpeg -r a/b -i ./fvid_frames/encoded_frames_%d.png -c:v libx264rgb file.mp4"
        ∈ log w'.
Proof.
  intros Hfile Hne. split; [reflexivity|].
  destruct (main_encode_run L OK (mkArgv true false input None (Some "a/b") None)
              w B "default") as (frames_evs & _ & Hrun); try done.
  eexists. split; [exact Hrun|].
  cbn [log cleaned parse_args args_framerate args_output opt_framerate opt_output
       default truthy].
  rewrite !elem_of_app. right. left. do 4 right. rewrite !elem_of_cons. by left.
Qed.

Lemma nonnumeric_framerate_accepted_witness :
  files Toy.world0 !! "docs/hello.txt" = Some Toy.HelloWorld
  ∧ Toy.HelloWorld ≠ []
  ∧ framerate_refused "a/b" = false
  ∧ ∃ w', @main Toy.libs (mkArgv true false "docs/hello.txt" None (Some "a/b") None)
            Toy.world0 = (Ok tt, w')
      ∧ ESystem "ffmpeg -r a/b -i ./fvid_frames/encoded_frames_%d.png -c:v libx264rgb file.mp4"
        ∈ log w'.
Proof.
  split; [reflexivity|]. split; [discriminate|].
  apply (nonnumeric_framerate_accepted Toy.libs toy_libs_ok "docs/hello.txt"
           Toy.HelloWorld Toy.world0); [reflexivity|discriminate].
Defined.

(** Decoding does not test the framerate at all: it reaches the
    transcoder through the global. *)
Example decode_framerate_unchecked :
  ESystem "ffmpeg -i video.mp4 -c:v libx264rgb -filter:v fps=fps=abc _temp.mp4"
  ∈ log (@main Toy.libs (mkArgv false true "video.mp4" None (Some "abc") None)
           Toy.world0).2.
Proof. vm_compute. set_solver. Qed.

(** X15. With [--password] left out, an encode run on a non-empty file
    builds its cipher with the default key and neither prompts nor derives
    a key. *)
Lemma main_encode_default_key (L : Libs) (OK : LibsOK L) (cmdline : argv) (w : world) B :
  opt_encode cmdline = true → opt_decode cmdline = false →
  opt_password cmdline = None →
  framerate_refused (default (FRAMERATE w) (opt_framerate cmdline)) = false →
  files w !! opt_input cmdline = Some B →
  B ≠ [] →
  ∃ evs w', main cmdline w = (Ok tt, w') ∧ log w' = log w ++ evs
    ∧ EAesNew DEFAULT_KEY ∈ evs
    ∧ Forall (λ e, is_prompt e = false ∧ is_kdf e = false) evs.
Proof.
  intros Henc Hdec Hpw Hfr Hfile Hne.
  destruct (main_encode_run L OK cmdline w B "default") as (frames_evs & Hfr_evs & Hrun);
    try done.
  { cbn. by rewrite Hpw. }
  eexists. eexists. split; [exact Hrun|]. split; [reflexivity|]. split.
  - rewrite bool_decide_eq_true_2 by done. cbn [app]. set_solver.
  - rewrite bool_decide_eq_true_2 by done. cbn [app].
    repeat (apply Forall_cons; split; [done|]).
    apply Forall_app. split; [|by repeat constructor].
    apply Forall_app. split; [|by repeat constructor].
    eapply Forall_impl; [exact Hfr_evs|]. by intros e (? & ? & _).
Qed.

(** * Further properties of the code *)

(** ** Chunking *)

Lemma concat_chunks {A} (l : list A) n m :
  concat (map (λ k, slice l (k * n) (k * n + n)) (seq 0 m)) = take (m * n) l.
Proof.
  induction m as [|m IH]; [done|].
  rewrite seq_S, map_app, concat_app, IH. cbn [map concat plus].
  rewrite app_nil_r. unfold slice.
  replace (m * n + n - m * n) with n by lia.
  rewrite take_take_drop. f_equal. lia.
Qed.

(** X1. Splitting a string every [n] characters, for a positive [n],
    loses and reorders nothing: the chunks joined in order are the string.
    There are [ceil(len / n)] of them, none is empty and none is longer
    than [n]. *)
Theorem split_string_by_n_concat {A} (bitstring : list A) n :
  0 < n →
  ∃ chunks, split_string_by_n bitstring n = Ok chunks
    ∧ concat chunks = bitstring
    ∧ length chunks = ceil_div (length bitstring) n
    ∧ Forall (λ chunk, 0 < length chunk ≤ n) chunks.
Proof.
  intros Hn. eexists. split; [by apply split_string_by_n_spec|].
  set (L := length bitstring). set (m := ceil_div L n).
  assert (L ≤ m * n ∧ (0 < L → (m - 1) * n < L)) as [Hhi Hlo].
  { destruct (decide (0 < L)) as [HL|HL].
    - destruct (ceil_div_bounds L n Hn HL). by split.
    - split; lia. }
  split; [|split].
  - rewrite concat_chunks. by apply take_ge.
  - by rewrite length_map, length_seq.
  - apply Forall_forall. intros chunk Hchunk.
    apply list_elem_of_fmap in Hchunk as (k & -> & Hk).
    apply elem_of_seq in Hk. rewrite length_chunk. fold L.
    assert (0 < L) by (destruct L; [|lia]; subst m; rewrite ceil_div_0 in Hk; lia).
    specialize (Hlo ltac:(done)). nia.
Qed.

Lemma split_string_by_n_concat_witness :
  0 < 4
  ∧ ∃ chunks, split_string_by_n [true; false; true; true; false; true] 4 = Ok chunks
    ∧ concat chunks = [true; false; true; true; false; true]
    ∧ length chunks = ceil_div (length [true; false; true; true; false; true]) 4
    ∧ Forall (λ chunk, 0 < length chunk ≤ 4) chunks.
Proof.
  split; [lia|].
  apply (split_string_by_n_concat [true; false; true; true; false; true] 4). lia.
Defined.

(** X2. [make_image_sequence] has no frame to pad when the bit string is
    empty: it stops with [IndexError]; with a resolution of no pixels the
    cutting itself fails, with [ValueError], whatever the bit string. In
    both cases two messages have been printed and nothing was saved. *)
Theorem make_image_sequence_degenerate W H (w : world) :
  (W * H = 0 →
   ∀ bitstring,
     make_image_sequence bitstring (W, H) w
     = (Raise ValueError,
        add_log w [EPrint "Making image sequence"; EPrint "Cutting..."]))
  ∧ (W * H ≠ 0 →
     make_image_sequence [] (W, H) w
     = (Raise IndexError,
        add_log w [EPrint "Making image sequence"; EPrint "Cutting..."])).
Proof.
  split.
  - intros Hzero bitstring. unfold make_image_sequence, print.
    rewrite !bind_emit, add_log_app.
    unfold mbind, M_bind, bind, lift, split_string_by_n, py_range.
    by rewrite Hzero.
  - intros Hpos. unfold make_image_sequence, print.
    rewrite !bind_emit, add_log_app.
    unfold mbind at 1, M_bind, bind, lift.
    rewrite split_string_by_n_spec by lia. cbn [length].
    rewrite ceil_div_0 by lia. reflexivity.
Qed.

(** ** Frames *)

(** X3. A frame of [width] by [height] pixels always decodes to exactly
    [width * height] bits, so a video of [k] frames of one size decodes to
    [k * width * height] bits. *)
Theorem decoded_length (image_sequence : list Image) W H :
  Forall (λ image, im_size image = (W, H)) image_sequence →
  Forall (λ image, length (get_bits_from_image image) = W * H) image_sequence
  ∧ length (concat (map get_bits_from_image image_sequence))
    = length image_sequence * (W * H).
Proof.
  intros Hsize.
  assert (Forall (λ image, length (get_bits_from_image image) = W * H) image_sequence)
    as Hlen.
  { eapply Forall_impl; [exact Hsize|]. intros image Himage.
    rewrite get_bits_from_image_flat, length_map, length_seq, Himage. cbn. lia. }
  split; [done|].
  induction Hlen as [|image rest Himage _ IH]; [done|].
  apply Forall_cons in Hsize as [_ Hsize].
  cbn [map concat length]. rewrite length_app, Himage, IH by done. lia.
Qed.

Lemma decoded_length_witness :
  Forall (λ image, im_size image = (2, 2)) [sample_image; sample_image]
  ∧ Forall (λ image, length (get_bits_from_image image) = 2 * 2)
           [sample_image; sample_image]
  ∧ length (concat (map get_bits_from_image [sample_image; sample_image]))
    = length [sample_image; sample_image] * (2 * 2).
Proof.
  split; [by repeat constructor|].
  apply (decoded_length [sample_image; sample_image] 2 2). by repeat constructor.
Defined.

(** X4. Decoding tolerates noise below the threshold: when every pixel
    that stands for a 1 has all three channels at 128 or more, and every
    pixel that stands for a 0 has all three at 127 or less, the frame
    decodes to the bits it stands for. *)
Theorem decode_tolerates_noise (image : Image) (bits : list bool) :
  length bits = (im_size image).2 * (im_size image).1 →
  (∀ x y (bit : bool),
     x < (im_size image).1 → y < (im_size image).2 →
     bits !! (y * (im_size image).1 + x) = Some bit →
     let '(r, g, b) := im_px image x y in
     if bit then (128 ≤ r ∧ 128 ≤ g ∧ 128 ≤ b)%Z
     else (r ≤ 127 ∧ g ≤ 127 ∧ b ≤ 127)%Z) →
  get_bits_from_image image = bits.
Proof.
  intros Hlen Hnoise. rewrite get_bits_from_image_flat.
  set (w := (im_size image).1) in *. set (h := (im_size image).2) in *.
  apply list_eq. intros i. rewrite list_lookup_fmap.
  destruct (decide (i < h * w)) as [Hi|Hi].
  - rewrite lookup_seq_lt by done. cbn.
    destruct (lookup_lt_is_Some_2 bits i) as [bit Hbit]; [lia|].
    rewrite Hbit. f_equal.
    assert (0 < w) as Hw by (destruct w; lia).
    pose proof (Nat.div_mod_eq i w) as Hdm.
    pose proof (Nat.mod_upper_bound i w ltac:(lia)) as Hmod.
    assert (i / w < h) as Hdiv by (apply Nat.Div0.div_lt_upper_bound; lia).
    specialize (Hnoise (i `mod` w) (i / w) bit Hmod Hdiv).
    replace (i / w * w + i `mod` w) with i in Hnoise by lia.
    specialize (Hnoise Hbit).
    destruct (im_px image (i `mod` w) (i / w)) as [[r g] b].
    unfold pixel_bin_rep. destruct bit.
    + rewrite !bool_decide_eq_true_2 by lia. done.
    + rewrite (bool_decide_eq_false_2 (Z.abs (r - 255) < Z.abs (r - 0))%Z) by lia. done.
  - rewrite lookup_seq_ge by lia. symmetry. apply lookup_ge_None. lia.
Qed.

Lemma decode_tolerates_noise_witness :
  length [true; false; false; true] = (im_size noisy_image).2 * (im_size noisy_image).1
  ∧ (∀ x y (bit : bool),
       x < (im_size noisy_image).1 → y < (im_size noisy_image).2 →
       [true; false; false; true] !! (y * (im_size noisy_image).1 + x) = Some bit →
       let '(r, g, b) := im_px noisy_image x y in
       if bit then (128 ≤ r ∧ 128 ≤ g ∧ 128 ≤ b)%Z
       else (r ≤ 127 ∧ g ≤ 127 ∧ b ≤ 127)%Z)
  ∧ get_bits_from_image noisy_image = [true; false; false; true].
Proof.
  assert (∀ x y (bit : bool),
       x < (im_size noisy_image).1 → y < (im_size noisy_image).2 →
       [true; false; false; true] !! (y * (im_size noisy_image).1 + x) = Some bit →
       let '(r, g, b) := im_px noisy_image x y in
       if bit then (128 ≤ r ∧ 128 ≤ g ∧ 128 ≤ b)%Z
       else (r ≤ 127 ∧ g ≤ 127 ∧ b ≤ 127)%Z) as Hnoise.
  { intros x y bit Hx Hy. cbn in Hx, Hy.
    destruct x as [|[|x]], y as [|[|y]]; try lia; cbn; intros [= <-]; lia. }
  split; [reflexivity|]. split; [exact Hnoise|].
  apply (decode_tolerates_noise noisy_image [true; false; false; true]);
    [reflexivity|exact Hnoise].
Defined.

(** ** From the bit string to the frames and back *)

Lemma concat_padded_chunks {A} (l : list A) (x : A) n m :
  (m - 1) * n ≤ length l →
  concat (map (λ k, slice l (k * n) (k * n + n)
                    ++ replicate (n - length (slice l (k * n) (k * n + n))) x)
              (seq 0 m))
  = take (m * n) l ++ replicate (m * n - length l) x.
Proof.
  induction m as [|m IH]; intros Hfull; [done|].
  rewrite seq_S, map_app, concat_app, IH by lia. cbn [map concat plus].
  rewrite app_nil_r, length_chunk.
  replace (m * n - length l) with 0 by lia. cbn [replicate]. rewrite app_nil_r.
  unfold slice. replace (m * n + n - m * n) with n by lia.
  rewrite app_assoc, take_take_drop. f_equal; [f_equal; lia|f_equal; lia].
Qed.

(** The saved frames of a run of [make_image_sequence], rendered and
    decoded one after the other. *)
Lemma decode_saved_frames W H (bitstring : list bool) (padded : list (list bool)) :
  bitstring ≠ [] → 0 < W * H →
  let n := W * H in
  let m := ceil_div (length bitstring) n in
  length padded = m →
  (∀ i, i < m →
     padded !! i
     = Some (slice bitstring (i * n) (i * n + n)
             ++ replicate (n - length (slice bitstring (i * n) (i * n + n))) false)) →
  concat (map get_bits_from_image
            (map (λ frame : string * Bitmap, render frame.2)
               (saved ([EPrint "Making image sequence"; EPrint "Cutting...";
                        EPrint "Saving frames..."]
                       ++ imap (λ i chunk, ESave (encoded_frame_path (1 + i))
                                             (mkBitmap (W, H) (map int_of_bit chunk)))
                               padded))))
  = bitstring ++ replicate (m * n - length bitstring) false.
Proof.
  intros Hne Hn n m Hlen Hpadded. set (L := length bitstring) in *.
  assert (0 < L) as HL by (subst L; destruct bitstring; [done|cbn; lia]).
  destruct (ceil_div_bounds L n Hn HL) as [Hlo Hhi]. fold m in Hlo, Hhi.
  rewrite saved_app, (saved_imap (λ i chunk, (encoded_frame_path (1 + i),
                                     mkBitmap (W, H) (map int_of_bit chunk)))).
  cbn [saved omap list_omap app].
  rewrite fmap_imap. cbn [snd compose].
  assert (padded
          = map (λ k, slice bitstring (k * n) (k * n + n)
                      ++ replicate (n - length (slice bitstring (k * n) (k * n + n)))
                                   false)
                (seq 0 m)) as Hmap.
  { apply list_eq. intros i. rewrite list_lookup_fmap.
    destruct (decide (i < m)) as [Hi|Hi].
    - by rewrite Hpadded, lookup_seq_lt by done.
    - rewrite lookup_seq_ge by lia. apply lookup_ge_None. lia. }
  transitivity (concat padded).
  - f_equal. apply list_eq. intros i.
    rewrite list_lookup_fmap, list_lookup_imap.
    destruct (padded !! i) as [chunk|] eqn:Hchunk; [|done]. cbn. f_equal.
    apply decode_render.
    assert (i < m) as Hi by (apply lookup_lt_Some in Hchunk; lia).
    rewrite Hpadded in Hchunk by done. injection Hchunk as <-.
    rewrite length_app, length_replicate, length_chunk. fold n. lia.
  - rewrite Hmap, concat_padded_chunks by (fold L; lia). fold L.
    by rewrite take_ge by lia.
Qed.

Lemma ceil_div_pos a n : 0 < n → 0 < a → 0 < ceil_div a n.
Proof.
  intros Hn Ha. destruct (ceil_div_bounds a n Hn Ha) as [_ Hhi].
  destruct (ceil_div a n); [cbn in Hhi; lia|lia].
Qed.

(** A directory that shows the frames of a run of [make_image_sequence]
    is not empty. *)
Lemma shown_frames_nonempty W H (padded : list (list bool)) (found : list dirent) :
  0 < length padded →
  map d_image found
  = map (λ frame : string * Bitmap, render frame.2)
        (saved ([EPrint "Making image sequence"; EPrint "Cutting...";
                 EPrint "Saving frames..."]
                ++ imap (λ i chunk, ESave (encoded_frame_path (1 + i))
                                      (mkBitmap (W, H) (map int_of_bit chunk)))
                        padded)) →
  found ≠ [].
Proof.
  intros Hpos Himages ->. apply (f_equal length) in Himages.
  rewrite saved_app, (saved_imap (λ i chunk, (encoded_frame_path (1 + i),
                                     mkBitmap (W, H) (map int_of_bit chunk)))) in Himages.
  cbn [saved omap list_omap app map length] in Himages.
  rewrite length_map, length_imap in Himages. lia.
Qed.

(** X5. The frames that [make_image_sequence] saves, passed on without
    loss and found again with modification times in the order of saving,
    decode to the original bit string followed by the zero bits that fill
    the last frame. *)
Theorem sequencer_roundtrip W H (bitstring : list bool) (w : world) :
  bitstring ≠ [] → 0 < W * H →
  ∃ evs,
    make_image_sequence bitstring (W, H) w = (Ok tt, add_log w evs)
    ∧ ∀ video_filepath w2,
        map d_image (glob_frames w2) = map (λ frame, render frame.2) (saved evs) →
        Sorted (λ a b, d_mtime a ≤ d_mtime b)%Z (glob_frames w2) →
        ∃ evs2,
          get_bits_from_video video_filepath w2
          = (Ok (bitstring
                 ++ replicate (ceil_div (length bitstring) (W * H) * (W * H)
                               - length bitstring) false),
             add_log w2 evs2).
Proof.
  intros Hne Hn.
  destruct (make_image_sequence_run W H bitstring w Hne Hn)
    as (padded & Hlen & Hpadded & Hrun).
  eexists. split; [exact Hrun|].
  intros video_filepath w2 Himages Hsorted. eexists.
  rewrite get_bits_from_video_run.
  - rewrite (sorted_by_id _ _ Hsorted), Himages.
    by rewrite (decode_saved_frames W H bitstring padded).
  - apply (shown_frames_nonempty W H padded); [|done].
    rewrite Hlen. apply ceil_div_pos; [done|]. destruct bitstring; [done|cbn; lia].
Qed.

Lemma sequencer_roundtrip_witness :
  [true; false; true; true; false; true] ≠ [] ∧ 0 < 2 * 2
  ∧ ∃ evs,
      make_image_sequence [true; false; true; true; false; true] (2, 2) Toy.world0
      = (Ok tt, add_log Toy.world0 evs)
      ∧ ∀ video_filepath w2,
          map d_image (glob_frames w2) = map (λ frame, render frame.2) (saved evs) →
          Sorted (λ a b, d_mtime a ≤ d_mtime b)%Z (glob_frames w2) →
          ∃ evs2,
            get_bits_from_video video_filepath w2
            = (Ok ([true; false; true; true; false; true]
                   ++ replicate (ceil_div (length [true; false; true; true; false; true])
                                          (2 * 2) * (2 * 2)
                                 - length [true; false; true; true; false; true]) false),
               add_log w2 evs2).
Proof.
  split; [done|]. split; [lia|].
  apply (sequencer_roundtrip 2 2 [true; false; true; true; false; true] Toy.world0);
    [done|lia].
Defined.

(** ** The whole pipeline *)

Lemma bin_bytes_app_whole bs rest :
  bin_bytes (bytes_bin bs ++ rest)
  = match bin_bytes rest with Ok r => Ok (bs ++ r) | Raise e => Raise e end.
Proof.
  induction bs as [|b bs IH]; [cbn; by destruct (bin_bytes rest)|].
  unfold bytes_bin in *. cbn [flat_map]. rewrite <- app_assoc.
  rewrite bin_bytes_byte_bin, IH. by destruct (bin_bytes rest).
Qed.

Lemma bin_bytes_zero_bits k : bin_bytes (replicate (8 * k) false) = Ok (replicate k x00).
Proof.
  induction k as [|k IH]; [done|].
  replace (8 * S k) with (S (S (S (S (S (S (S (S (8 * k))))))))) by lia.
  cbn [replicate bin_bytes]. by rewrite IH.
Qed.

Lemma toy2_read_len n rest :
  Toy2.read_len (replicate n x01 ++ x00 :: rest) = Some (n, rest).
Proof. induction n as [|n IH]; [done|]. cbn. by rewrite IH. Qed.

Lemma toy2_decompress_padded data k :
  Toy2.decompress (Toy2.compress data ++ replicate k x00) = Some data.
Proof.
  unfold Toy2.decompress, Toy2.compress. cbn [app]. cbn [Byte.eqb]. simpl andb.
  rewrite <- app_assoc. cbn [app]. rewrite toy2_read_len.
  rewrite drop_app_length, take_app_length.
  assert ((length data <=? length (data ++ replicate k x00)) = true) as ->.
  { apply Nat.leb_le. rewrite length_app. lia. }
  assert (forallb (Byte.eqb x00) (replicate k x00) = true) as ->; [|done].
  induction k as [|k IH]; [done|]. cbn. exact IH.
Qed.

Lemma toy2_libs_ok : LibsOK Toy2.libs.
Proof.
  destruct toy_libs_ok as [Hlen Hctr _ _ Hjson Hb64].
  split; [exact Hlen|exact Hctr| | |exact Hjson|exact Hb64].
  - intros data. cbv [gzip_decompress gzip_compress Toy2.libs].
    rewrite <- (app_nil_r (Toy2.compress data)).
    apply (toy2_decompress_padded data 0).
  - done.
Qed.

(** The bits of a container, followed by the zero bits that filled the
    last frame, still decode to the file. *)
Lemma save_padded_bits (L : Libs) (OK : LibsOK L)
    (B : list byte) (name P : string) (W H : nat) file_path (w : world) :
  (∀ data k, gzip_decompress (gzip_compress data ++ replicate k x00) = Some data) →
  0 < W * H → (W * H) `mod` 8 = 0 →
  let zip := gzip_compress (json_dumps (container_record
               (EAX_mac (derive P) SALT (EAX_ctr (derive P) SALT B))
               (EAX_ctr (derive P) SALT B) name)) in
  let bits := bytes_bin zip in
  save_bits_to_file file_path
    (bits ++ replicate (ceil_div (length bits) (W * H) * (W * H) - length bits) false)
    (derive P) w
  = (Ok tt, written w (default name file_path) B
              [EPrint "Unziping..."; EAesNew (derive P); EPrint "Checking integrity..."]).
Proof.
  intros Hpadding Hn Hbytes zip bits. subst bits. rewrite length_bytes_bin.
  set (m := ceil_div (8 * length zip) (W * H)).
  destruct (ceil_div_bounds (8 * length zip) (W * H) Hn) as [_ Hhi].
  { assert (zip ≠ []) by apply gzip_nonempty. destruct zip; [done|cbn; lia]. }
  fold m in Hhi.
  pose proof (Nat.div_mod_eq (W * H) 8) as Hdiv. rewrite Hbytes in Hdiv.
  replace (m * (W * H) - 8 * length zip)
    with (8 * (m * (W * H / 8) - length zip)) by nia.
  erewrite save_bits_to_file_parsed;
    [ | by rewrite bin_bytes_app_whole, bin_bytes_zero_bits
      | apply Hpadding | apply json_roundtrip
      | reflexivity | apply b64_roundtrip | reflexivity | apply b64_roundtrip
      | reflexivity | apply derive_valid ].
  rewrite bool_decide_eq_true_2 by done. rewrite EAX_ctr_involutive.
  destruct file_path as [p|]; cbn [write_to default]; apply write_file_written.
Qed.

(** X6. The whole way there and back, for a frame size of a whole number
    of bytes and a decompressor that ignores zero bytes after the end of
    its stream, as a gzip reader does: a non-empty file turned into bits,
    cut into frames, the frames handed on without loss and decoded in the
    order of saving, the bits decoded under the same password -- the file
    comes back byte for byte, at its recorded path or at the output path. *)
Theorem pipeline_roundtrip (L : Libs) (OK : LibsOK L)
    (B : list byte) (name P : string) (W H : nat) (w : world) :
  (∀ data k, gzip_decompress (gzip_compress data ++ replicate k x00) = Some data) →
  files w !! name = Some B →
  B ≠ [] →
  0 < W * H → (W * H) `mod` 8 = 0 →
  ∃ bits w1 evs,
    get_bits_from_file name (derive P) w = (Ok bits, w1)
    ∧ make_image_sequence bits (W, H) w1 = (Ok tt, add_log w1 evs)
    ∧ ∀ video_filepath file_path w2,
        map d_image (glob_frames w2) = map (λ frame, render frame.2) (saved evs) →
        Sorted (λ a b, d_mtime a ≤ d_mtime b)%Z (glob_frames w2) →
        ∃ bits' w3 evs',
          get_bits_from_video video_filepath w2 = (Ok bits', w3)
          ∧ save_bits_to_file file_path bits' (derive P) w3
            = (Ok tt, written w3 (default name file_path) B evs').
Proof.
  intros Hpadding Hfile HB Hn Hbytes.
  pose proof (get_bits_from_file_spec name (derive P) B w Hfile HB (derive_valid P))
    as Henc.
  cbv zeta in Henc.
  set (zip := gzip_compress _) in Henc.
  assert (bytes_bin zip ≠ []) as Hne by apply bytes_bin_nonempty, gzip_nonempty.
  destruct (make_image_sequence_run W H (bytes_bin zip)
              (add_log w [EPrint "Reading file..."; EAesNew (derive P);
                          EPrint "Zipping..."]) Hne Hn)
    as (padded & Hlen & Hpadded & Hrun).
  do 3 eexists. split; [exact Henc|]. split; [exact Hrun|].
  intros video_filepath file_path w2 Himages Hsorted. do 3 eexists.
  split.
  { apply get_bits_from_video_run, (shown_frames_nonempty W H padded); [|done].
    rewrite Hlen. apply ceil_div_pos; [done|].
    destruct (bytes_bin zip); [done|cbn; lia]. }
  rewrite (sorted_by_id _ _ Hsorted), Himages.
  rewrite (decode_saved_frames W H (bytes_bin zip) padded) by done.
  by apply save_padded_bits.
Qed.

Lemma pipeline_roundtrip_witness :
  (∀ data k, @gzip_decompress Toy2.libs (@gzip_compress Toy2.libs data ++ replicate k x00)
             = Some data)
  ∧ files Toy.world0 !! "docs/hello.txt" = Some Toy.HelloWorld
  ∧ Toy.HelloWorld ≠ []
  ∧ 0 < 4 * 4 ∧ (4 * 4) `mod` 8 = 0
  ∧ ∃ bits w1 evs,
      @get_bits_from_file Toy2.libs "docs/hello.txt" (@derive Toy2.libs "secret")
        Toy.world0 = (Ok bits, w1)
      ∧ make_image_sequence bits (4, 4) w1 = (Ok tt, add_log w1 evs)
      ∧ ∀ video_filepath file_path w2,
          map d_image (glob_frames w2) = map (λ frame, render frame.2) (saved evs) →
          Sorted (λ a b, d_mtime a ≤ d_mtime b)%Z (glob_frames w2) →
          ∃ bits' w3 evs',
            get_bits_from_video video_filepath w2 = (Ok bits', w3)
            ∧ @save_bits_to_file Toy2.libs file_path bits' (@derive Toy2.libs "secret") w3
              = (Ok tt, written w3 (default "docs/hello.txt" file_path)
                                Toy.HelloWorld evs').
Proof.
  split; [exact toy2_decompress_padded|]. split; [reflexivity|].
  split; [discriminate|]. split; [lia|]. split; [reflexivity|].
  apply (pipeline_roundtrip Toy2.libs toy2_libs_ok Toy.HelloWorld "docs/hello.txt"
           "secret" 4 4 Toy.world0);
    [exact toy2_decompress_padded | reflexivity | discriminate | lia | reflexivity].
Defined.

(** ** Decoding: what is refused and what is written *)

Lemma bin_bytes_partial bits :
  length bits `mod` 8 ≠ 0 → bin_bytes bits = Raise InterpretError.
Proof.
  induction bits as [bits IH] using (induction_ltof1 _ length). unfold ltof in IH.
  destruct bits as [|b7 [|b6 [|b5 [|b4 [|b3 [|b2 [|b1 [|b0 rest]]]]]]]];
    cbn [bin_bytes]; try done.
  intros Hmod. rewrite IH; [done|cbn; lia|].
  cbn [length] in Hmod.
  replace (S (S (S (S (S (S (S (S (length rest))))))))) with (length rest + 1 * 8)
    in Hmod by lia.
  by rewrite Nat.Div0.mod_add in Hmod.
Qed.

Lemma length_decoded_frames (images : list Image) W H :
  Forall (λ image, im_size image = (W, H)) images →
  length (concat (map get_bits_from_image images)) = length images * (W * H).
Proof.
  induction 1 as [|image rest Himage _ IH]; [done|].
  cbn [map concat length]. rewrite length_app, IH.
  rewrite get_bits_from_image_flat, length_map, length_seq, Himage. cbn. lia.
Qed.

(** X7. Frames whose pixels do not add up to a whole number of bytes
    cannot be decoded: the bits read from them are refused with
    [InterpretError] before anything is decompressed, deciphered or
    written. *)
Theorem partial_byte_video_refused (L : Libs) W H
    (video_filepath : string) (file_path : option string) (key : list byte) (w : world) :
  Forall (λ d, im_size (d_image d) = (W, H)) (glob_frames w) →
  (length (glob_frames w) * (W * H)) `mod` 8 ≠ 0 →
  ∃ bits w1,
    get_bits_from_video video_filepath w = (Ok bits, w1)
    ∧ length bits = length (glob_frames w) * (W * H)
    ∧ save_bits_to_file file_path bits key w1
      = (Raise InterpretError, add_log w1 [EPrint "Unziping..."]).
Proof.
  intros Hsize Hmod.
  assert (glob_frames w ≠ []) as Hframes by (by intros Hnil; rewrite Hnil in Hmod).
  do 2 eexists. split; [by apply get_bits_from_video_run|].
  assert (length (concat (map get_bits_from_image
                            (map d_image (sorted_by d_mtime (glob_frames w)))))
          = length (glob_frames w) * (W * H)) as Hlen.
  { rewrite (length_decoded_frames _ W H).
    - by rewrite length_map, sorted_by_Permutation.
    - apply Forall_fmap. by rewrite sorted_by_Permutation. }
  split; [done|].
  unfold save_bits_to_file, print. rewrite bind_emit, bind_lift.
  by rewrite bin_bytes_partial by (by rewrite Hlen).
Qed.

Lemma partial_byte_video_refused_witness :
  Forall (λ d, im_size (d_image d) = (2, 2))
         (glob_frames (mkWorld ∅ [] [mkDirent "decoded_frames_1.png" 10 sample_image]
                               FRAMERATE0 []))
  ∧ (length (glob_frames (mkWorld ∅ [] [mkDirent "decoded_frames_1.png" 10 sample_image]
                                  FRAMERATE0 [])) * (2 * 2)) `mod` 8 ≠ 0
  ∧ ∃ bits w1,
      get_bits_from_video "video.mp4"
        (mkWorld ∅ [] [mkDirent "decoded_frames_1.png" 10 sample_image] FRAMERATE0 [])
      = (Ok bits, w1)
      ∧ length bits
        = length (glob_frames (mkWorld ∅ [] [mkDirent "decoded_frames_1.png" 10 sample_image]
                                       FRAMERATE0 [])) * (2 * 2)
      ∧ @save_bits_to_file Toy.libs None bits DEFAULT_KEY w1
        = (Raise InterpretError, add_log w1 [EPrint "Unziping..."]).
Proof.
  split; [by repeat constructor|]. split; [cbn; lia|].
  apply (partial_byte_video_refused Toy.libs 2 2 "video.mp4" None DEFAULT_KEY
           (mkWorld ∅ [] [mkDirent "decoded_frames_1.png" 10 sample_image] FRAMERATE0 []));
    [by repeat constructor | cbn; lia].
Defined.

Ltac decode_front :=
  unfold save_bits_to_file, print; rewrite bind_emit, bind_lift;
  repeat first
    [ rewrite bind_of_option
    | rewrite bind_lift
    | progress cbn [getitem b64decode_value]
    | match goal with
      | H : ?x = _ |- context [match ?x with _ => _ end] => rewrite H
      end ].

Ltac stops_unwritten :=
  left; eexists _, [EPrint "Unziping..."];
  split; [decode_front; reflexivity|by repeat constructor].

Lemma write_fd_run fd content w evs :
  write_fd fd content (add_log w evs)
  = if bool_decide (fd < - 2 ^ 31 ∨ 2 ^ 31 ≤ fd)%Z then (Raise TypeError, add_log w evs)
    else if bool_decide (fd < 0)%Z then (Raise ValueError, add_log w evs)
    else match files w !! fd_path fd with
         | Some _ => (Ok tt, written_fd w fd content evs)
         | None => (Raise OSError, add_log w evs)
         end.
Proof.
  unfold write_fd. repeat case_bool_decide; try done.
  cbn [add_log files]. destruct (files w !! fd_path fd) as [before|] eqn:Hfd; [|done].
  unfold written_fd, add_log. cbn [files tty glob_frames FRAMERATE log].
  by rewrite <- app_assoc.
Qed.

(** What the final write does, for a path given or taken from the record:
    it raises and leaves the world alone, or writes the content to the
    path that a string names, or to the open descriptor that a number or
    a boolean names. *)
Lemma write_to_outcome (filepath : json) content w evs :
  (∃ e, write_to filepath content (add_log w evs) = (Raise e, add_log w evs))
  ∨ (∃ path, filepath = JStr path
       ∧ write_to filepath content (add_log w evs) = (Ok tt, written w path content evs))
  ∨ (∃ fd, (filepath = JNum fd
            ∨ ∃ b : bool, filepath = JBool b ∧ fd = if b then 1%Z else 0%Z)
       ∧ is_Some (files w !! fd_path fd)
       ∧ write_to filepath content (add_log w evs)
         = (Ok tt, written_fd w fd content evs)).
Proof.
  assert (∀ fd,
            (∃ e, write_fd fd content (add_log w evs) = (Raise e, add_log w evs))
            ∨ (is_Some (files w !! fd_path fd)
               ∧ write_fd fd content (add_log w evs)
                 = (Ok tt, written_fd w fd content evs))) as Hfd.
  { intros fd. rewrite write_fd_run. repeat case_bool_decide; eauto.
    destruct (files w !! fd_path fd); eauto. }
  destruct filepath as [|b|fd|path|items|fields]; cbn [write_to]; eauto.
  - destruct (Hfd (if b then 1%Z else 0%Z)) as [?|[? ?]]; [by left|].
    right; right. eexists. split; [right; by exists b|done].
  - destruct (Hfd fd) as [?|[? ?]]; [by left|].
    right; right. exists fd. split; [by left|done].
  - right; left. exists path. split; [done|]. apply write_file_written.
Qed.

(** X8. [save_bits_to_file] writes only what authenticates: either it
    raises and has written nothing, or the bits hold a record with a tag
    and data that [base64.b64decode] accepts, the tag is the one the key
    gives for the data, and exactly the deciphered data is written, once:
    to a path, or -- when no output path is given and the record has a
    number or a boolean for its filename -- to the open file descriptor of
    that number. *)
Theorem writes_only_authenticated (L : Libs)
    (file_path : option string) (bits : list bool) (key : list byte) (w : world) :
  (∃ e evs,
     save_bits_to_file file_path bits key w = (Raise e, add_log w evs)
     ∧ Forall (λ ev, is_write ev = false) evs)
  ∨ (∃ blob raw fields t d tag ciphertext evs,
       bin_bytes bits = Ok blob
       ∧ gzip_decompress blob = Some raw
       ∧ json_loads raw = Some (JObj fields)
       ∧ assoc "tag" fields = Some (JStr t) ∧ base64_b64decode t = Ok tag
       ∧ assoc "data" fields = Some (JStr d) ∧ base64_b64decode d = Ok ciphertext
       ∧ EAX_mac key SALT ciphertext = tag
       ∧ Forall (λ ev, is_write ev = false) evs
       ∧ ((∃ path,
             save_bits_to_file file_path bits key w
             = (Ok tt, written w path (EAX_ctr key SALT ciphertext) evs))
          ∨ (∃ fd,
               file_path = None
               ∧ (assoc "filename" fields = Some (JNum fd)
                  ∨ ∃ b : bool, assoc "filename" fields = Some (JBool b)
                                ∧ fd = if b then 1%Z else 0%Z)
               ∧ is_Some (files w !! fd_path fd)
               ∧ save_bits_to_file file_path bits key w
                 = (Ok tt, written_fd w fd (EAX_ctr key SALT ciphertext) evs)))).
Proof.
  destruct (bin_bytes bits) as [blob|e] eqn:Hbits; [|stops_unwritten].
  destruct (gzip_decompress blob) as [raw|] eqn:Hgz; [|stops_unwritten].
  destruct (json_loads raw) as [data|] eqn:Hjson; [|stops_unwritten].
  destruct data as [| | | |items|fields]; try stops_unwritten.
  destruct (assoc "tag" fields) as [t|] eqn:Htag; [|stops_unwritten].
  destruct t as [| | |t| |]; try stops_unwritten.
  destruct (base64_b64decode t) as [tag|e] eqn:Ht; [|stops_unwritten].
  destruct (assoc "data" fields) as [d|] eqn:Hdata; [|stops_unwritten].
  destruct d as [| | |d| |]; try stops_unwritten.
  destruct (base64_b64decode d) as [ciphertext|e] eqn:Hd; [|stops_unwritten].
  destruct (assoc "filename" fields) as [filename|] eqn:Hname; [|stops_unwritten].
  destruct (decide (valid_key_length key)) as [Hkey|Hkey]; cycle 1.
  { left. eexists _, [EPrint "Unziping..."; EAesNew key].
    split; [|by repeat constructor].
    decode_front. unfold AES_new. unfold mbind at 1, M_bind, bind.
    rewrite bind_emit, add_log_app. unfold valid_key_length in Hkey.
    by rewrite bool_decide_eq_false_2. }
  pose proof (save_bits_to_file_parsed file_path bits key w blob raw fields t d tag
                ciphertext filename Hbits Hgz Hjson Htag Ht Hdata Hd Hname Hkey)
    as Hrun. cbv zeta in Hrun.
  set (evs := [EPrint "Unziping..."; EAesNew key; EPrint "Checking integrity..."]) in *.
  assert (Forall (λ ev, is_write ev = false) evs) as Hevs by (by repeat constructor).
  destruct (decide (EAX_mac key SALT ciphertext = tag)) as [Hmac|Hmac]; cycle 1.
  { rewrite bool_decide_eq_false_2 in Hrun by done. left. by eexists _, evs. }
  rewrite bool_decide_eq_true_2 in Hrun by done.
  destruct (write_to_outcome
              (match file_path with None => filename | Some p => JStr p end)
              (EAX_ctr key SALT ciphertext) w evs)
    as [[e He]|[(path & Hpath & Hwrite)|(fd & Hfd & Hopen & Hwrite)]].
  - left. exists e, evs. split; [by rewrite Hrun|done].
  - right. exists blob, raw, fields, t, d, tag, ciphertext, evs.
    rewrite <- Hbits. repeat (split; [done|]). left. exists path. by rewrite Hrun.
  - right. exists blob, raw, fields, t, d, tag, ciphertext, evs.
    rewrite <- Hbits. repeat (split; [done|]). right. exists fd.
    destruct file_path as [p|]; [by destruct Hfd as [?|(? & ? & ?)]|].
    split; [done|]. split; [|split; [done|by rewrite Hrun]].
    destruct Hfd as [->|(b & -> & ->)]; [by left|right; by exists b].
Qed.

(** A record that authenticates and has the number 1 for its filename is
    written to the standard output when that descriptor is open. *)
Example numbered_filename_run :
  let fields := [("tag", JStr (Toy.put_b64 (DEFAULT_KEY ++ Toy.HelloWorld)));
                 ("data", JStr (Toy.put_b64 Toy.HelloWorld)); ("filename", JNum 1)] in
  let bits := bytes_bin (Toy.compress (Toy.dumps (JObj fields))) in
  let run := @save_bits_to_file Toy.libs None bits DEFAULT_KEY
               (mkWorld {[ fd_path 1 := [] ]} [] [] FRAMERATE0 []) in
  run.1 = Ok tt
  ∧ last (log run.2) = Some (EWriteFd 1 (reverse Toy.HelloWorld))
  ∧ files run.2 !! fd_path 1 = None.
Proof. vm_compute. done. Qed.

(** X9. With an output path the recorded filename is not used, but it is
    still looked up: a record without the key [filename] fails with
    [KeyError] before the cipher, while any value under that key -- a
    string or not -- lets an authentic container be written to the output
    path. *)
Theorem output_path_and_filename (L : Libs)
    bits blob raw fields t d tag ciphertext (p : string) (key : list byte) (w : world) :
  bin_bytes bits = Ok blob →
  gzip_decompress blob = Some raw →
  json_loads raw = Some (JObj fields) →
  assoc "tag" fields = Some (JStr t) → base64_b64decode t = Ok tag →
  assoc "data" fields = Some (JStr d) → base64_b64decode d = Ok ciphertext →
  valid_key_length key →
  EAX_mac key SALT ciphertext = tag →
  match assoc "filename" fields with
  | None =>
      save_bits_to_file (Some p) bits key w
      = (Raise (KeyError "filename"), add_log w [EPrint "Unziping..."])
  | Some _ =>
      save_bits_to_file (Some p) bits key w
      = (Ok tt, written w p (EAX_ctr key SALT ciphertext)
                        [EPrint "Unziping..."; EAesNew key;
                         EPrint "Checking integrity..."])
  end.
Proof.
  intros Hbits Hgz Hjson Htag Ht Hdata Hd Hkey Hmac.
  destruct (assoc "filename" fields) as [filename|] eqn:Hname.
  - erewrite save_bits_to_file_parsed by done.
    rewrite bool_decide_eq_true_2 by done. cbn [write_to].
    apply write_file_written.
  - unfold save_bits_to_file, print. rewrite bind_emit, bind_lift, Hbits.
    rewrite bind_of_option, Hgz, bind_of_option, Hjson. cbn [getitem].
    rewrite bind_of_option, Htag. cbn [b64decode_value].
    rewrite bind_lift, Ht, bind_of_option, Hdata. cbn [b64decode_value].
    by rewrite bind_lift, Hd, bind_of_option, Hname.
Qed.

Lemma output_path_and_filename_witness :
  bin_bytes numbered_bits = Ok (Toy.compress (Toy.dumps (JObj numbered_fields)))
  ∧ @gzip_decompress Toy.libs (Toy.compress (Toy.dumps (JObj numbered_fields)))
    = Some (Toy.dumps (JObj numbered_fields))
  ∧ @json_loads Toy.libs (Toy.dumps (JObj numbered_fields)) = Some (JObj numbered_fields)
  ∧ assoc "tag" numbered_fields = Some (JStr (Toy.put_b64 DEFAULT_KEY))
  ∧ @base64_b64decode Toy.libs (Toy.put_b64 DEFAULT_KEY) = Ok DEFAULT_KEY
  ∧ assoc "data" numbered_fields = Some (JStr "")
  ∧ @base64_b64decode Toy.libs "" = Ok []
  ∧ valid_key_length DEFAULT_KEY
  ∧ @EAX_mac Toy.libs DEFAULT_KEY SALT [] = DEFAULT_KEY
  ∧ match assoc "filename" numbered_fields with
    | None =>
        @save_bits_to_file Toy.libs (Some "out.bin") numbered_bits DEFAULT_KEY Toy.world0
        = (Raise (KeyError "filename"), add_log Toy.world0 [EPrint "Unziping..."])
    | Some _ =>
        @save_bits_to_file Toy.libs (Some "out.bin") numbered_bits DEFAULT_KEY Toy.world0
        = (Ok tt, written Toy.world0 "out.bin" (@EAX_ctr Toy.libs DEFAULT_KEY SALT [])
                          [EPrint "Unziping..."; EAesNew DEFAULT_KEY;
                           EPrint "Checking integrity..."])
    end.
Proof.
  assert (valid_key_length DEFAULT_KEY) as Hkey by (vm_compute; set_solver).
  repeat (split; [first [exact Hkey|apply bin_bytes_bytes_bin|reflexivity]|]).
  apply (output_path_and_filename Toy.libs numbered_bits
           (Toy.compress (Toy.dumps (JObj numbered_fields)))
           (Toy.dumps (JObj numbered_fields)) numbered_fields
           (Toy.put_b64 DEFAULT_KEY) "" DEFAULT_KEY [] "out.bin" DEFAULT_KEY
           Toy.world0);
    first [exact Hkey|apply bin_bytes_bytes_bin|reflexivity].
Defined.

(** ** The log only grows *)

Lemma extends_log_ret {A} (a : A) : extends_log (ret a).
Proof. intros w. exists []. by rewrite app_nil_r. Qed.

Lemma extends_log_raise {A} (e : exn) : extends_log (@raise A e).
Proof. intros w. exists []. by rewrite app_nil_r. Qed.

Lemma extends_log_emit e : extends_log (emit e).
Proof. intros w. by exists [e]. Qed.

Lemma extends_log_lift {A} (r : result A) : extends_log (lift r).
Proof. intros w. exists []. by rewrite app_nil_r. Qed.

Lemma extends_log_of_option {A} (o : option A) e : extends_log (of_option o e).
Proof. destruct o; [apply extends_log_ret|apply extends_log_raise]. Qed.

Lemma extends_log_bind {A B} (m : M A) (k : A → M B) :
  extends_log m → (∀ a, extends_log (k a)) → extends_log (m ≫= k).
Proof.
  intros Hm Hk w. unfold mbind, M_bind, bind.
  destruct (Hm w) as [evs Hevs]. destruct (m w) as [[a|e] w1]; cbn [snd] in *.
  - destruct (Hk a w1) as [evs' Hevs']. exists (evs ++ evs').
    by rewrite Hevs', Hevs, app_assoc.
  - by exists evs.
Qed.

Lemma extends_log_write_file path content : extends_log (write_file path content).
Proof. intros w. by exists [EOpenWrite path]. Qed.

Lemma extends_log_write_fd fd content : extends_log (write_fd fd content).
Proof.
  intros w. unfold write_fd. repeat case_bool_decide; try (exists []; by rewrite app_nil_r).
  destruct (files w !! fd_path fd); [by exists [EWriteFd fd content]|].
  exists []. by rewrite app_nil_r.
Qed.

Lemma extends_log_except {A} (m : M A) e :
  extends_log m → extends_log (except_ValueError m e).
Proof.
  intros Hm w. destruct (Hm w) as [evs Hevs]. exists evs.
  unfold except_ValueError. by destruct (m w) as [[a|[]] w1].
Qed.

Lemma extends_log_save_bits_to_file (L : Libs) file_path bits key :
  extends_log (save_bits_to_file file_path bits key).
Proof.
  unfold save_bits_to_file, print, getitem, b64decode_value, AES_new, verify, write_to.
  repeat first
    [ apply extends_log_bind; [|intros ?]
    | apply extends_log_emit | apply extends_log_lift | apply extends_log_of_option
    | apply extends_log_ret | apply extends_log_raise | apply extends_log_write_file
    | apply extends_log_write_fd | apply extends_log_except
    | match goal with
      | |- extends_log (match ?x with _ => _ end) => destruct x
      | |- extends_log (if ?b then _ else _) => destruct b
      end ].
Qed.

(** ** Keys and the command line *)

(** X10. A password typed at the prompt is put through the key derivation
    as it is -- also the word [default], which on the command line stands
    for the fixed key -- and the line is consumed; for any other word the
    key is the one the same password gives on the command line. With no
    line to read the prompt fails with [EOFError] and no key is derived. *)
Theorem prompted_password (L : Libs) (w : world) :
  match tty w with
  | line :: rest =>
      get_password None w
      = (Ok (PBKDF2HMAC 32 SALT 100000 (str_encode line)),
         mkWorld (files w) rest (glob_frames w) (FRAMERATE w)
                 (log w ++ [EGetpass "Enter password:"; EKdf (str_encode line)]))
      ∧ (line ≠ "default" →
         ∀ w0, (get_password None w).1 = (get_password (Some line) w0).1)
  | [] =>
      get_password None w
      = (Raise EOFError,
         mkWorld (files w) [] (glob_frames w) (FRAMERATE w)
                 (log w ++ [EGetpass "Enter password:"]))
  end.
Proof.
  destruct (tty w) as [|line rest] eqn:Htty.
  - unfold get_password. rewrite bool_decide_eq_false_2 by done.
    unfold mbind, M_bind, bind, getpass. by rewrite Htty.
  - assert (get_password None w
            = (Ok (PBKDF2HMAC 32 SALT 100000 (str_encode line)),
               mkWorld (files w) rest (glob_frames w) (FRAMERATE w)
                 (log w ++ [EGetpass "Enter password:"; EKdf (str_encode line)])))
      as Hrun.
    { unfold get_password. rewrite bool_decide_eq_false_2 by done.
      unfold mbind at 1, M_bind, bind, getpass. rewrite Htty.
      rewrite bind_emit. unfold ret, add_log.
      cbn [files tty glob_frames FRAMERATE log]. by rewrite <- app_assoc. }
    split; [exact Hrun|]. intros Hline w0. rewrite Hrun, get_password_Some.
    unfold derive. by rewrite bool_decide_eq_false_2.
Qed.

(** X11. With neither [--encode] nor [--decode] the run stops with
    [MissingArgument]: by then the frames directory has been made and the
    framerate global assigned, but no password has been asked for, no key
    derived, and the directory is not removed. *)
Theorem missing_mode (L : Libs) (cmdline : argv) (w : world) :
  opt_encode cmdline = false → opt_decode cmdline = false →
  main cmdline w
  = (Raise (MissingArgument "You should use either --encode or --decode!"),
     add_log (with_FRAMERATE w (default (FRAMERATE w) (opt_framerate cmdline)))
             [EMakedirs FRAMES_DIR]).
Proof.
  intros Henc Hdec. unfold main. rewrite bind_get_FRAMERATE.
  unfold setup. rewrite bind_emit, bind_get_FRAMERATE.
  change (FRAMERATE (add_log w [EMakedirs FRAMES_DIR])) with (FRAMERATE w).
  rewrite (bind_set_FRAMERATE_if _ _ (add_log w [EMakedirs FRAMES_DIR])).
  cbn [parse_args args_decode args_encode args_framerate].
  rewrite Henc, Hdec. reflexivity.
Qed.

Lemma missing_mode_witness :
  opt_encode (mkArgv false false "docs/hello.txt" None (Some "5") (Some None)) = false
  ∧ opt_decode (mkArgv false false "docs/hello.txt" None (Some "5") (Some None)) = false
  ∧ @main Toy.libs (mkArgv false false "docs/hello.txt" None (Some "5") (Some None))
      Toy.world0
    = (Raise (MissingArgument "You should use either --encode or --decode!"),
       add_log (with_FRAMERATE Toy.world0
                  (default (FRAMERATE Toy.world0)
                     (opt_framerate (mkArgv false false "docs/hello.txt" None
                                            (Some "5") (Some None)))))
               [EMakedirs FRAMES_DIR]).
Proof.
  split; [reflexivity|]. split; [reflexivity|].
  apply (missing_mode Toy.libs
           (mkArgv false false "docs/hello.txt" None (Some "5") (Some None)) Toy.world0);
    reflexivity.
Defined.

(** X12. When [--decode] is given, [--encode] makes no difference: the run
    is the decode run, and the framerate -- never tested on this path --
    goes to the transcoder through the global as it was typed. *)
Theorem decode_takes_precedence (L : Libs)
    (enc : bool) input output framerate password (w : world) :
  main (mkArgv enc true input output framerate password) w
  = main (mkArgv false true input output framerate password) w
  ∧ ∃ r w',
      main (mkArgv enc true input output framerate password) w = (r, w')
      ∧ (password ≠ Some None →
         ESystem ("ffmpeg -i " +:+ input
                  +:+ " -c:v libx264rgb -filter:v fps=fps="
                  +:+ default (FRAMERATE w) framerate +:+ " " +:+ TEMPVIDEO)
         ∈ log w').
Proof.
  split; [by destruct enc|].
  destruct (main (mkArgv enc true input output framerate password) w) as [r w'] eqn:Hrun.
  exists r, w'. split; [done|]. intros Hpw.
  rewrite main_start in Hrun.
  cbn [parse_args args_decode args_encode args_framerate args_password args_input
       args_output opt_encode opt_decode opt_input opt_output opt_framerate
       opt_password negb andb] in Hrun.
  rewrite bind_ret in Hrun.
  assert (∃ P, match password with Some given => given | None => Some "default" end
               = Some P) as [P HP].
  { destruct password as [[P|]|]; [by exists P|done|by eexists]. }
  rewrite HP in Hrun. erewrite bind_Ok in Hrun by apply get_password_Some.
  unfold mbind at 1, M_bind, bind in Hrun.
  unfold mbind at 1, M_bind, bind in Hrun.
  match type of Hrun with
  | context [get_bits_from_video ?i ?w0] =>
      destruct (get_bits_from_video_log i w0) as (r0 & evs0 & Hvideo);
      rewrite Hvideo in Hrun;
      assert (ESystem ("ffmpeg -i " +:+ input +:+ " -c:v libx264rgb -filter:v fps=fps="
                       +:+ default (FRAMERATE w) framerate +:+ " " +:+ TEMPVIDEO)
              ∈ log (add_log w0
                       ([EPrint "Reading video...";
                         ESystem ("ffmpeg -i " +:+ i
                                  +:+ " -c:v libx264rgb -filter:v fps=fps="
                                  +:+ FRAMERATE w0 +:+ " " +:+ TEMPVIDEO);
                         ESystem ("ffmpeg -i " +:+ TEMPVIDEO
                                  +:+ " ./fvid_frames/decoded_frames_%d.png")]
                        ++ evs0))) as Hin0
  end.
  { cbn [log add_log FRAMERATE with_FRAMERATE app]. rewrite !elem_of_app. right.
    rewrite !elem_of_cons. right. by left. }
  destruct r0 as [bits|e0]; [|by injection Hrun as <- <-].
  match type of Hrun with
  | context [save_bits_to_file ?fp ?bits ?key ?w1] =>
      destruct (extends_log_save_bits_to_file L fp bits key w1) as (evs & Hlog);
      destruct (save_bits_to_file fp bits key w1) as [r1 w1'] eqn:Hsave
  end.
  cbn [snd] in Hlog.
  assert (ESystem ("ffmpeg -i " +:+ input +:+ " -c:v libx264rgb -filter:v fps=fps="
                   +:+ default (FRAMERATE w) framerate +:+ " " +:+ TEMPVIDEO)
          ∈ log w1') as Hin.
  { rewrite Hlog, elem_of_app. by left. }
  destruct r1; injection Hrun as <- <-; [|done].
  unfold cleanup. cbn [log]. rewrite elem_of_app. by left.
Qed.

Lemma minus_is_no_digit s : str_contains "-" s = true → all_digits s = false.
Proof.
  induction s as [|c s IH]; [done|]. cbn [str_contains all_digits].
  destruct (Ascii.eqb_spec "-"%char c) as [<-|_]; [done|].
  intros Hs. by rewrite IH, andb_false_r.
Qed.

(** A password typed at the prompt, or the failure of the prompt. *)
Lemma get_password_prompted (L : Libs) (w : world) :
  get_password None w
  = match tty w with
    | line :: rest =>
        (Ok (PBKDF2HMAC 32 SALT 100000 (str_encode line)),
         mkWorld (files w) rest (glob_frames w) (FRAMERATE w)
                 (log w ++ [EGetpass "Enter password:"; EKdf (str_encode line)]))
    | [] =>
        (Raise EOFError,
         mkWorld (files w) [] (glob_frames w) (FRAMERATE w)
                 (log w ++ [EGetpass "Enter password:"]))
    end.
Proof.
  unfold get_password. rewrite bool_decide_eq_false_2 by done.
  unfold mbind at 1, M_bind, bind, getpass. destruct (tty w) as [|line rest]; [done|].
  rewrite bind_emit. unfold ret, add_log.
  cbn [files tty glob_frames FRAMERATE log]. by rewrite <- app_assoc.
Qed.

(** X13. In an encode run a framerate with a minus sign anywhere in it is
    always turned down, with or without a slash, before the input file is
    read: no frame is saved and no external command started, the frames
    directory made at the start is left behind and the framerate global
    keeps the refused value. The run stops with [NotImplementedError],
    except that the password comes first: with [--password] given without
    a value the prompt is shown before the framerate is looked at, and
    with no line to read there the run stops with [EOFError] instead. *)
Theorem negative_framerate_refused (L : Libs) (cmdline : argv) (w : world) :
  opt_encode cmdline = true → opt_decode cmdline = false →
  str_contains "-" (default (FRAMERATE w) (opt_framerate cmdline)) = true →
  let framerate := default (FRAMERATE w) (opt_framerate cmdline) in
  match args_password (parse_args (FRAMERATE w) cmdline), tty w with
  | Some P, _ =>
      ∃ msg,
        main cmdline w
        = (Raise (NotImplementedError msg),
           add_log (with_FRAMERATE w framerate)
             (EMakedirs FRAMES_DIR
              :: (if bool_decide (P = "default") then [] else [EKdf (str_encode P)])))
  | None, line :: rest =>
      ∃ msg,
        main cmdline w
        = (Raise (NotImplementedError msg),
           mkWorld (files w) rest (glob_frames w) framerate
                   (log w ++ [EMakedirs FRAMES_DIR; EGetpass "Enter password:";
                              EKdf (str_encode line)]))
  | None, [] =>
      main cmdline w
      = (Raise EOFError,
         mkWorld (files w) [] (glob_frames w) framerate
                 (log w ++ [EMakedirs FRAMES_DIR; EGetpass "Enter password:"]))
  end.
Proof.
  intros Henc Hdec Hminus framerate.
  assert (framerate_refused framerate = true) as Hrefused.
  { unfold framerate_refused. cbn [forallb]. subst framerate. rewrite Hminus. cbn [andb].
    destruct (str_contains "/" _); [by rewrite orb_true_r|].
    cbn [negb andb]. rewrite andb_true_r, orb_false_r.
    unfold isdigit. destruct (default _ _) eqn:Hfr; [done|].
    by rewrite minus_is_no_digit. }
  rewrite main_start.
  assert (args_encode (parse_args (FRAMERATE w) cmdline) = true) as -> by done.
  assert (args_decode (parse_args (FRAMERATE w) cmdline) = false) as -> by done.
  cbn [negb andb]. rewrite bind_ret.
  change (args_framerate (parse_args (FRAMERATE w) cmdline)) with framerate.
  destruct (args_password (parse_args (FRAMERATE w) cmdline)) as [P|].
  - erewrite bind_Ok by apply get_password_Some.
    rewrite Hrefused. eexists. unfold mbind, M_bind, bind, raise.
    by rewrite add_log_app.
  - pose proof (get_password_prompted L
                  (add_log (with_FRAMERATE w framerate) [EMakedirs FRAMES_DIR])) as Hpw.
    cbn [tty add_log with_FRAMERATE files glob_frames FRAMERATE log] in Hpw.
    destruct (tty w) as [|line rest].
    + erewrite bind_Raise by exact Hpw. by rewrite <- app_assoc.
    + erewrite bind_Ok by exact Hpw.
      rewrite Hrefused. eexists. unfold mbind, M_bind, bind, raise.
      by rewrite <- app_assoc.
Qed.

Lemma negative_framerate_refused_witness :
  opt_encode (mkArgv true false "docs/hello.txt" None (Some "-12") (Some None)) = true
  ∧ opt_decode (mkArgv true false "docs/hello.txt" None (Some "-12") (Some None)) = false
  ∧ str_contains "-"
      (default (FRAMERATE prompting_world)
         (opt_framerate (mkArgv true false "docs/hello.txt" None (Some "-12") (Some None))))
    = true
  ∧ let cmdline := mkArgv true false "docs/hello.txt" None (Some "-12") (Some None) in
    let w := prompting_world in
    let framerate := default (FRAMERATE w) (opt_framerate cmdline) in
    match args_password (parse_args (FRAMERATE w) cmdline), tty w with
    | Some P, _ =>
        ∃ msg,
          @main Toy.libs cmdline w
          = (Raise (NotImplementedError msg),
             add_log (with_FRAMERATE w framerate)
               (EMakedirs FRAMES_DIR
                :: (if bool_decide (P = "default") then [] else [EKdf (str_encode P)])))
    | None, line :: rest =>
        ∃ msg,
          @main Toy.libs cmdline w
          = (Raise (NotImplementedError msg),
             mkWorld (files w) rest (glob_frames w) framerate
                     (log w ++ [EMakedirs FRAMES_DIR; EGetpass "Enter password:";
                                EKdf (str_encode line)]))
    | None, [] =>
        @main Toy.libs cmdline w
        = (Raise EOFError,
           mkWorld (files w) [] (glob_frames w) framerate
                   (log w ++ [EMakedirs FRAMES_DIR; EGetpass "Enter password:"]))
    end.
Proof.
  do 3 (split; [reflexivity|]).
  apply (negative_framerate_refused Toy.libs
           (mkArgv true false "docs/hello.txt" None (Some "-12") (Some None))
           prompting_world); reflexivity.
Defined.

(** X14. The order in which the directory lists the decoded frames does
    not matter as long as no two of them share a modification time: the
    same frames listed in any order decode to the same bits. *)
Theorem listing_order_irrelevant (video_filepath : string) (w w' : world) :
  glob_frames w ≡ₚ glob_frames w' →
  (∀ a b, a ∈ glob_frames w → b ∈ glob_frames w → d_mtime a = d_mtime b → a = b) →
  (get_bits_from_video video_filepath w).1 = (get_bits_from_video video_filepath w').1.
Proof.
  intros Hperm Hdistinct.
  destruct (glob_frames w) as [|frame found] eqn:Hfound.
  { symmetry in Hperm. apply Permutation_nil_r in Hperm.
    by rewrite !get_bits_from_video_no_frames. }
  assert (glob_frames w' ≠ []) as Hfound'.
  { intros Hnil. rewrite Hnil in Hperm. by apply Permutation_nil_r in Hperm. }
  rewrite <- Hfound in *.
  rewrite !get_bits_from_video_run by (done || by rewrite Hfound). cbn [fst].
  do 4 f_equal.
  assert (Transitive (λ a b : dirent, d_mtime a ≤ d_mtime b)%Z) as Htrans.
  { intros a b c. lia. }
  apply (Sorted_unique_strong (λ a b : dirent, d_mtime a ≤ d_mtime b)%Z).
  - intros a b Ha Hb Hab Hba. rewrite sorted_by_Permutation in Ha, Hb.
    rewrite <- Hperm in Hb. apply Hdistinct; [done|done|lia].
  - apply sorted_by_Sorted.
  - apply sorted_by_Sorted.
  - by rewrite !sorted_by_Permutation.
Qed.

Lemma listing_order_irrelevant_witness :
  glob_frames (mkWorld ∅ [] [frame_two; frame_one] FRAMERATE0 [])
  ≡ₚ glob_frames (mkWorld ∅ [] [frame_one; frame_two] FRAMERATE0 [])
  ∧ (∀ a b, a ∈ glob_frames (mkWorld ∅ [] [frame_two; frame_one] FRAMERATE0 []) →
            b ∈ glob_frames (mkWorld ∅ [] [frame_two; frame_one] FRAMERATE0 []) →
            d_mtime a = d_mtime b → a = b)
  ∧ (get_bits_from_video "video.mp4"
       (mkWorld ∅ [] [frame_two; frame_one] FRAMERATE0 [])).1
    = (get_bits_from_video "video.mp4"
         (mkWorld ∅ [] [frame_one; frame_two] FRAMERATE0 [])).1.
Proof.
  assert (∀ a b, a ∈ [frame_two; frame_one] → b ∈ [frame_two; frame_one] →
                 d_mtime a = d_mtime b → a = b) as Hdistinct.
  { intros a b Ha Hb.
    apply elem_of_cons in Ha as [->|Ha]; [|apply list_elem_of_singleton in Ha as ->];
    (apply elem_of_cons in Hb as [->|Hb]; [|apply list_elem_of_singleton in Hb as ->]);
    cbn; intros; done. }
  split; [apply Permutation_swap|]. split; [exact Hdistinct|].
  apply (listing_order_irrelevant "video.mp4"
           (mkWorld ∅ [] [frame_two; frame_one] FRAMERATE0 [])
           (mkWorld ∅ [] [frame_one; frame_two] FRAMERATE0 []));
    [apply Permutation_swap|exact Hdistinct].
Defined.

Lemma rmtree_FRAMES_DIR_lookup (fs : gmap string (list byte)) (path : string) :
  in_FRAMES_DIR path = false → rmtree_FRAMES_DIR fs !! path = fs !! path.
Proof.
  intros Hpath. unfold rmtree_FRAMES_DIR.
  destruct (fs !! path) as [content|] eqn:Hfs.
  - by apply map_lookup_filter_Some.
  - apply map_lookup_filter_None. by left.
Qed.

Lemma rmtree_FRAMES_DIR_deleted (fs : gmap string (list byte)) (path : string) :
  in_FRAMES_DIR path = true → rmtree_FRAMES_DIR fs !! path = None.
Proof.
  intros Hpath. unfold rmtree_FRAMES_DIR. apply map_lookup_filter_None.
  right. intros content _. cbn. by rewrite Hpath.
Qed.



Lemma main_encode_default_key_witness :
  opt_encode (mkArgv true false "docs/hello.txt" None None None) = true
  ∧ opt_decode (mkArgv true false "docs/hello.txt" None None None) = false
  ∧ opt_password (mkArgv true false "docs/hello.txt" None None None) = None
  ∧ framerate_refused
      (default (FRAMERATE Toy.world0)
         (opt_framerate (mkArgv true false "docs/hello.txt" None None None))) = false
  ∧ files Toy.world0 !! opt_input (mkArgv true false "docs/hello.txt" None None None)
    = Some Toy.HelloWorld
  ∧ Toy.HelloWorld ≠ []
  ∧ ∃ evs w', @main Toy.libs (mkArgv true false "docs/hello.txt" None None None)
                Toy.world0 = (Ok tt, w')
      ∧ log w' = log Toy.world0 ++ evs
      ∧ EAesNew DEFAULT_KEY ∈ evs
      ∧ Forall (λ e, is_prompt e = false ∧ is_kdf e = false) evs.
Proof.
  do 5 (split; [reflexivity|]). split; [discriminate|].
  apply (main_encode_default_key Toy.libs toy_libs_ok
           (mkArgv true false "docs/hello.txt" None None None) Toy.world0 Toy.HelloWorld);
    first [reflexivity|discriminate].
Defined.



(** An input file kept in the frames directory is gone after the run. *)
Example encode_run_deletes_input :
  let w := mkWorld {[ "./fvid_frames/in.bin" := Toy.HelloWorld; "other.bin" := [x00] ]}
                   [] [] FRAMERATE0 [] in
  let run := @main Toy.libs (mkArgv true false "./fvid_frames/in.bin" None None None) w in
  files run.2 !! "./fvid_frames/in.bin" = None
  ∧ files run.2 !! "other.bin" = Some [x00].
Proof.
  set (cmdline := mkArgv true false "./fvid_frames/in.bin" None None None).
  intros w run.
  destruct (main_encode_run Toy.libs toy_libs_ok cmdline w Toy.HelloWorld "default"
              eq_refl eq_refl eq_refl eq_refl eq_refl ltac:(discriminate))
    as (frames_evs & _ & Hrun).
  subst run. rewrite Hrun. cbn [snd cleaned files w]. split.
  - by apply rmtree_FRAMES_DIR_deleted.
  - by rewrite rmtree_FRAMES_DIR_lookup.
Qed.
